(** * Shallow embedding of the comboi pipeline core (serverless-duckdb)

    Stage sequencer and worker continuation
    ([azure_functions/shared_packages/comboi/pipeline/driver.py],
    [azure_functions/executor/__init__.py]), checkpoint store
    ([azure_functions/shared_packages/comboi/checkpoint.py]) and the
    contract validators ([src/comboi/contracts/*.py]). *)

From Stdlib Require Import Bool ZArith List String Ascii Lia.
From Stdlib Require Import Numbers.DecimalString.
From Stdlib Require Import Floats.
Import ListNotations.
Open Scope string_scope.
Set Warnings "-register-all".

(** ** Python exceptions and a small error monad *)

(** A Python exception: its class name and its message. *)
Record exn := Exn { exn_class : string; exn_msg : string }.

(** Result of Python code that may raise. *)
Inductive res (A : Type) : Type :=
| ROk : A -> res A
| RExc : exn -> res A.
Arguments ROk {A} _.
Arguments RExc {A} _.

Definition res_bind {A B} (m : res A) (k : A -> res B) : res B :=
  match m with
  | ROk a => k a
  | RExc e => RExc e
  end.

Notation "x <- m ;; k" := (res_bind m (fun x => k))
  (at level 61, m at next level, right associativity).

(** ** String helpers (Python [str] operations used by the code) *)

(** [str(n)] for a Python int. *)
Definition Z_to_string (z : Z) : string :=
  NilEmpty.string_of_int (Z.to_int z).

(** ASCII [str.lower]. *)
Definition lower_char (c : ascii) : ascii :=
  let n := nat_of_ascii c in
  if (65 <=? n)%nat && (n <=? 90)%nat then ascii_of_nat (n + 32) else c.

Fixpoint lower (s : string) : string :=
  match s with
  | EmptyString => EmptyString
  | String c s' => String (lower_char c) (lower s')
  end.

(** Python [sub in s] for strings. *)
Fixpoint str_contains (s sub : string) : bool :=
  match s with
  | EmptyString => String.eqb sub EmptyString
  | String _ s' => String.prefix sub s || str_contains s' sub
  end.

(** Python [x in xs] for a list of strings, and [xs.index(x)]. *)
Definition str_in (x : string) (xs : list string) : bool :=
  existsb (String.eqb x) xs.

Fixpoint str_index (x : string) (xs : list string) : nat :=
  match xs with
  | [] => 0
  | y :: ys => if String.eqb x y then 0 else S (str_index x ys)
  end.

(** ** Stage sequencer: [Driver.execution_order] (driver.py, lines 62-70) *)

Module Driver.

Definition order : list string := ["bronze"; "silver"; "gold"].

(** [selected : Optional[str]]; [None] is Python's [None]. *)
Definition execution_order (selected : option string) : res (list string) :=
  match selected with
  | None => ROk order
  | Some sel =>
      (* [if not selected or selected == "all"] *)
      if String.eqb sel "" || String.eqb sel "all" then ROk order
      else
        let stage := lower sel in
        if negb (str_in stage order)
        then RExc (Exn "ValueError" ("Unknown stage " ++ sel))
        else ROk (skipn (str_index stage order) order)
  end.

(** [Driver.plan] *)
Definition plan (selected : option string) : res (list string) :=
  execution_order selected.

End Driver.

(** ** Path normalisation: [str(pathlib.Path(p))] on POSIX

    [posixpath.splitroot] keeps exactly two leading slashes, collapses one
    or three and more into one; the remaining text is split on ["/"] and
    empty and ["."] components are dropped; an empty result prints as
    ["."]. *)
Module PosixPath.

Fixpoint split_slash_aux (acc : string) (s : string) : list string :=
  match s with
  | EmptyString => [acc]
  | String c s' =>
      if Ascii.eqb c "/"%char then acc :: split_slash_aux "" s'
      else split_slash_aux (acc ++ String c "") s'
  end.

(** [rel.split("/")] *)
Definition split_slash (s : string) : list string := split_slash_aux "" s.

Fixpoint lstrip_slash (s : string) : string :=
  match s with
  | String c s' => if Ascii.eqb c "/"%char then lstrip_slash s' else s
  | EmptyString => EmptyString
  end.

(** [posixpath.splitroot(p)] without the drive: [(root, rel)]. *)
Definition splitroot (p : string) : string * string :=
  match p with
  | String "/" (String "/" (String "/" _)) => ("/", lstrip_slash p)
  | String "/" (String "/" rest) => ("//", rest)
  | String "/" _ => ("/", lstrip_slash p)
  | _ => ("", p)
  end.

Fixpoint join_slash (parts : list string) : string :=
  match parts with
  | [] => ""
  | [x] => x
  | x :: xs => x ++ "/" ++ join_slash xs
  end.

Definition path_str (p : string) : string :=
  let '(root, rel) := splitroot p in
  let parts := filter (fun x => negb (String.eqb x "") && negb (String.eqb x "."))
                      (split_slash rel) in
  let s := root ++ join_slash parts in
  if String.eqb s "" then "." else s.

End PosixPath.

(** ** Worker: [main] and [_enqueue_next] (executor/__init__.py) *)

Module Worker.

(** The JSON payload of a queue message, after [get_json()]: each key
    may be absent. *)
Record payload := Payload {
  p_config_path : option string;
  p_stage : option string;
  p_remaining : option (list string)
}.

(** A continuation message as [_enqueue_next] builds it. *)
Record cont_msg := ContMsg {
  cm_config_path : string;
  cm_stage : string;
  cm_remaining : list string
}.

(** Observable effects of one invocation, in order. *)
Inductive event :=
| ECreateDriver (config_path : string)
| ERunStage (stage : string)
| EEnqueue (m : cont_msg).

(** The collaborators of the worker: [os.getenv("COMBOI_CONFIG")],
    [create_driver], [driver.run_stage], the queue construction from
    [driver.config.queue] ([AzureTaskQueue.from_connection_string]) and
    [queue.enqueue]. *)
Record host := Host {
  h_driver : Type;
  h_queue : Type;
  h_env_config : option string;
  h_create_driver : string -> res h_driver;
  h_run_stage : h_driver -> string -> res string;
  h_open_queue : h_driver -> res h_queue;
  h_enqueue : h_queue -> cont_msg -> res unit
}.

Section Invocation.
Variable H : host.

Definition enqueue_next (d : h_driver H) (config_path : string)
    (remaining : list string) : list event * res unit :=
  match h_open_queue H d with
  | RExc e => ([], RExc e)
  | ROk q =>
      match remaining with
      | [] => ([], RExc (Exn "IndexError" "list index out of range"))
      | next_stage :: rest =>
          let m := ContMsg config_path next_stage rest in
          match h_enqueue H q m with
          | RExc e => ([], RExc e)
          | ROk _ => ([EEnqueue m], ROk tt)
          end
      end
  end.

Definition main (p : payload) : list event * res unit :=
  let config_path :=
    PosixPath.path_str
      (match p_config_path p with
       | Some c => c
       | None => match h_env_config H with
                 | Some e => e
                 | None => "configs/default.yml"
                 end
       end) in
  match p_stage p with
  | None => ([], RExc (Exn "KeyError" "'stage'"))
  | Some stage =>
      let remaining := match p_remaining p with Some r => r | None => [] end in
      match h_create_driver H config_path with
      | RExc e => ([ECreateDriver config_path], RExc e)
      | ROk d =>
          match h_run_stage H d stage with
          | RExc e => ([ECreateDriver config_path; ERunStage stage], RExc e)
          | ROk _ =>
              match remaining with
              | [] => ([ECreateDriver config_path; ERunStage stage], ROk tt)
              | _ =>
                  let '(evs, r) := enqueue_next d config_path remaining in
                  (([ECreateDriver config_path; ERunStage stage] ++ evs)%list, r)
              end
          end
      end
  end.

End Invocation.

(** A host on which every collaborator succeeds. *)
Definition ok_host : host :=
  Host unit unit None (fun _ => ROk tt) (fun _ _ => ROk "done")
       (fun _ => ROk tt) (fun _ _ => ROk tt).

End Worker.

(** ** Checkpoint store (checkpoint.py)

    Python values as the store receives them, the JSON document it
    persists, and the [json.dump] / [json.load] conversions between them.
    A Python float is an IEEE double, a primitive [float]; [json.dump]
    writes its [repr] (or [NaN], [Infinity], [-Infinity]) and [json.load]
    parses it back to the same double, a NaN to the decoder's own NaN. *)
Module Checkpoint.

(** Keys that [json.dump] accepts in a dict (float keys aside). *)
Inductive pykey :=
| KStr (s : string)
| KInt (z : Z)
| KBool (b : bool)
| KNone.

Inductive pyval :=
| PNone
| PBool (b : bool)
| PInt (z : Z)
| PFloat (x : float)
| PStr (s : string)
| PList (l : list pyval)
| PTuple (l : list pyval)
| PDict (kvs : list (pykey * pyval)).

Inductive json :=
| JNull
| JBool (b : bool)
| JNum (z : Z)
| JFloat (x : float)   (* a number with a fraction or exponent, or NaN / Infinity *)
| JStr (s : string)
| JArr (l : list json)
| JObj (members : list (string * json)).

(** [json.dump] turns a non-string key into its JSON spelling. *)
Definition key_str (k : pykey) : string :=
  match k with
  | KStr s => s
  | KInt z => Z_to_string z
  | KBool true => "true"
  | KBool false => "false"
  | KNone => "null"
  end.

(** [json.dump]: tuples are written as arrays, dict keys as strings. *)
Fixpoint json_of_py (v : pyval) : json :=
  match v with
  | PNone => JNull
  | PBool b => JBool b
  | PInt z => JNum z
  | PFloat x => JFloat x
  | PStr s => JStr s
  | PList l => JArr (map json_of_py l)
  | PTuple l => JArr (map json_of_py l)
  | PDict kvs => JObj (map (fun kv => match kv with
                                      | (k, x) => (key_str k, json_of_py x)
                                      end) kvs)
  end.

(** A Python dict with [str] keys: an association list in insertion
    order; [d[k] = v] replaces in place or appends. *)
Definition sdict := list (string * pyval).

Fixpoint dict_set (k : string) (v : pyval) (d : sdict) : sdict :=
  match d with
  | [] => [(k, v)]
  | (k', v') :: d' =>
      if String.eqb k k' then (k, v) :: d' else (k', v') :: dict_set k v d'
  end.

(** [d.get(k, default)] *)
Fixpoint dict_get (k : string) (dflt : pyval) (d : sdict) : pyval :=
  match d with
  | [] => dflt
  | (k', v') :: d' => if String.eqb k k' then v' else dict_get k dflt d'
  end.

(** [dict(pairs)]: later duplicates overwrite earlier ones. *)
Definition dict_of_pairs (pairs : sdict) : sdict :=
  fold_left (fun acc kv => dict_set (fst kv) (snd kv) acc) pairs [].

(** [json.load]: arrays become lists, objects dicts with [str] keys. *)
Fixpoint py_of_json (j : json) : pyval :=
  match j with
  | JNull => PNone
  | JBool b => PBool b
  | JNum z => PInt z
  | JFloat x => PFloat x
  | JStr s => PStr s
  | JArr l => PList (map py_of_json l)
  | JObj ms =>
      PDict (map (fun kv => (KStr (fst kv), snd kv))
                 (dict_of_pairs (map (fun m => match m with
                                               | (k, x) => (k, py_of_json x)
                                               end) ms)))
  end.

(** The checkpoint file: the members of the JSON object it holds. *)
Definition file := list (string * json).

(** [_read]: [json.load] of the file. *)
Definition read (f : file) : sdict :=
  dict_of_pairs (map (fun m => (fst m, py_of_json (snd m))) f).

(** [_write]: [json.dump] of the dict (temp file then rename; the
    rename makes the new content the file's content). *)
Definition write (d : sdict) : file :=
  map (fun kv => (fst kv, json_of_py (snd kv))) d.

(** [CheckpointStore(path)]: an absent file is created holding [{}]. *)
Definition init (existing : option file) : file :=
  match existing with
  | Some f => f
  | None => write []
  end.

(** [get]: a session reads the document, looks the key up and writes the
    document back. *)
Definition get (k : string) (dflt : pyval) (f : file) : pyval * file :=
  let data := read f in
  (dict_get k dflt data, write data).

(** [update]: a session reads the document, sets the key and writes it
    back. *)
Definition update (k : string) (v : pyval) (f : file) : file :=
  let data := read f in
  write (dict_set k v data).

Inductive op :=
| OGet (k : string) (dflt : pyval)
| OUpdate (k : string) (v : pyval).

Definition run_op (f : file) (o : op) : file :=
  match o with
  | OGet k d => snd (get k d f)
  | OUpdate k v => update k v f
  end.

Definition run (ops : list op) (f : file) : file := fold_left run_op ops f.

(** Values that come back from a JSON round trip as they went in: no
    tuples, and dicts with distinct [str] keys. *)
Fixpoint str_keys_distinct (seen : list string) (ks : list pykey) : bool :=
  match ks with
  | [] => true
  | KStr s :: ks' => negb (existsb (String.eqb s) seen) && str_keys_distinct (s :: seen) ks'
  | _ :: _ => false
  end.

Fixpoint json_normal (v : pyval) : bool :=
  match v with
  | PTuple _ => false
  | PList l => forallb json_normal l
  | PDict kvs =>
      str_keys_distinct [] (map fst kvs) &&
      forallb (fun kv => match kv with (_, x) => json_normal x end) kvs
  | _ => true
  end.

End Checkpoint.

(** ** Contract validation engine (src/comboi/contracts)

    The DuckDB connection is the validators' only collaborator.  Every
    [con.execute(...).fetchone()[0]] the validators issue is a constructor
    of [query]; a connection answers each one or raises.  [Table] below
    gives the answers DuckDB computes on a concrete in-memory table. *)
Module Contracts.

(** Scalars: DuckDB results and the YAML values of a contract. *)
Inductive sval :=
| VNull
| VBool (b : bool)
| VInt (z : Z)
| VStr (s : string).

(** [str(x)] of such a value. *)
Definition sval_str (v : sval) : string :=
  match v with
  | VNull => "None"
  | VBool true => "True"
  | VBool false => "False"
  | VInt z => Z_to_string z
  | VStr s => s
  end.

(** [repr(x)] (strings without quote characters). *)
Definition sval_repr (v : sval) : string :=
  match v with
  | VStr s => "'" ++ s ++ "'"
  | _ => sval_str v
  end.

(** Python [==] on these values ([True == 1], [False == 0]). *)
Definition py_eqb (a b : sval) : bool :=
  match a, b with
  | VNull, VNull => true
  | VBool x, VBool y => Bool.eqb x y
  | VInt x, VInt y => Z.eqb x y
  | VBool x, VInt y | VInt y, VBool x => Z.eqb y (if x then 1 else 0)%Z
  | VStr x, VStr y => String.eqb x y
  | _, _ => false
  end.

Fixpoint join (sep : string) (l : list string) : string :=
  match l with
  | [] => ""
  | [x] => x
  | x :: xs => x ++ sep ++ join sep xs
  end.

(** [repr] of a list and of a set of strings; a set is printed in the
    order given (Python leaves a set's order unspecified). *)
Definition list_repr (l : list sval) : string :=
  "[" ++ join ", " (map sval_repr l) ++ "]".

Definition set_repr (l : list string) : string :=
  "{" ++ join ", " (map (fun x => "'" ++ x ++ "'") l) ++ "}".

(** The COUNT queries of the validators. *)
Inductive query :=
| QNullCount (ds col : string)            (* WHERE col IS NULL *)
| QDupCount (ds col : string)             (* GROUP BY col HAVING COUNT( * ) > 1 *)
| QBelow (ds col : string) (lit : sval)   (* WHERE col < lit *)
| QAbove (ds col : string) (lit : sval)   (* WHERE col > lit *)
| QNotIn (ds col : string) (allowed : list sval)
    (* WHERE col NOT IN ('v', ...) AND col IS NOT NULL *)
| QNotLikeEmail (ds col : string)
    (* WHERE col IS NOT NULL AND col NOT LIKE '%@%.%' *)
| QRowCount (ds : string).                (* SELECT COUNT( * ) *)

(** A row of [DESCRIBE dataset]: column name, type, and the ["YES"] /
    ["NO"] null flag (key, default and extra are not used). *)
Record describe_row := DescribeRow {
  dr_name : string;
  dr_type : string;
  dr_null : string
}.

Record conn := Conn {
  describe : string -> res (list describe_row);
  count : query -> res Z;
  scalar : string -> res sval       (* a custom SQL query's first column *)
}.

(** Result shared by the three validators. *)
Record vresult := VResult {
  passed : bool;
  errors : list string;
  warnings : list string
}.

Definition is_empty {A} (l : list A) : bool :=
  match l with [] => true | _ => false end.

(** *** Schema validator (schema_validator.py) *)

(** A column constraint dict; [Some] when its key is present.  For
    [not_null] and [unique] the boolean is the value's truthiness. *)
Record constraint := Constraint {
  c_not_null : option bool;
  c_unique : option bool;
  c_min_value : option sval;
  c_max_value : option sval;
  c_allowed_values : option (list sval);
  c_pattern : option string
}.

Definition no_constraint : constraint :=
  Constraint None None None None None None.

Record column_def := ColumnDef {
  col_name : string;
  col_type : string;
  col_nullable : bool;
  col_constraints : list constraint
}.

Section Schema.
Variable con : conn.
Variable ds : string.

Definition when_some {A} (o : option A) (k : A -> res (list string * list string))
  : res (list string * list string) :=
  match o with
  | Some a => k a
  | None => ROk ([], [])
  end.

Definition if_count (q : query) (msg : Z -> string) : res (list string) :=
  n <- count con q ;;
  ROk (if (0 <? n)%Z then [msg n] else []).

(** The checks of one constraint dict, in source order, as
    [(errors, warnings)]. *)
Definition check_constraint (name : string) (c : constraint)
  : res (list string * list string) :=
  e1 <- (match c_not_null c with
         | Some true =>
             if_count (QNullCount ds name) (fun n =>
               "Column " ++ name ++ " has " ++ Z_to_string n ++
               " NULL values but contract requires NOT NULL")
         | _ => ROk []
         end) ;;
  e2 <- (match c_unique c with
         | Some true =>
             if_count (QDupCount ds name) (fun _ =>
               "Column " ++ name ++ " has duplicates but contract requires UNIQUE")
         | _ => ROk []
         end) ;;
  e3 <- (match c_min_value c with
         | Some v =>
             if_count (QBelow ds name v) (fun n =>
               "Column " ++ name ++ " has " ++ Z_to_string n ++
               " values below minimum " ++ sval_str v)
         | None => ROk []
         end) ;;
  e4 <- (match c_max_value c with
         | Some v =>
             if_count (QAbove ds name v) (fun n =>
               "Column " ++ name ++ " has " ++ Z_to_string n ++
               " values above maximum " ++ sval_str v)
         | None => ROk []
         end) ;;
  e5 <- (match c_allowed_values c with
         | Some allowed =>
             if_count (QNotIn ds name allowed) (fun n =>
               "Column " ++ name ++ " has " ++ Z_to_string n ++
               " values not in allowed list: " ++ list_repr allowed)
         | None => ROk []
         end) ;;
  w <- (match c_pattern c with
        | Some pattern =>
            if str_contains pattern "@" then
              if_count (QNotLikeEmail ds name) (fun n =>
                "Column " ++ name ++ " has " ++ Z_to_string n ++
                " values that may not match pattern " ++ pattern)
            else ROk []
        | None => ROk []
        end) ;;
  ROk ((e1 ++ e2 ++ e3 ++ e4 ++ e5)%list, w).

Fixpoint check_constraints (name : string) (cs : list constraint)
  : res (list string * list string) :=
  match cs with
  | [] => ROk ([], [])
  | c :: cs' =>
      ew <- check_constraint name c ;;
      ew' <- check_constraints name cs' ;;
      ROk ((fst ew ++ fst ew')%list, (snd ew ++ snd ew')%list)
  end.

(** [SchemaValidator._validate_column] *)
Definition validate_column (col : column_def) (actual : describe_row)
  : res (list string * list string) :=
  let e0 := if negb (col_nullable col) && String.eqb (dr_null actual) "YES"
            then ["Column " ++ col_name col ++
                  " is nullable but contract requires NOT NULL"]
            else [] in
  ew <- check_constraints (col_name col) (col_constraints col) ;;
  ROk ((e0 ++ fst ew)%list, snd ew).

Fixpoint find_row (name : string) (rows : list describe_row) : option describe_row :=
  match rows with
  | [] => None
  | r :: rs =>
      (* the dict comprehension keeps the last row of a name *)
      match find_row name rs with
      | Some r' => Some r'
      | None => if String.eqb (dr_name r) name then Some r else None
      end
  end.

Fixpoint dedup (l : list string) : list string :=
  match l with
  | [] => []
  | x :: xs => if str_in x xs then dedup xs else x :: dedup xs
  end.

Fixpoint validate_columns (cols : list column_def) (rows : list describe_row)
  : res (list string * list string) :=
  match cols with
  | [] => ROk ([], [])
  | c :: cs =>
      ew <- match find_row (col_name c) rows with
            | None => ROk ([], [])          (* already reported as missing *)
            | Some actual => validate_column c actual
            end ;;
      ew' <- validate_columns cs rows ;;
      ROk ((fst ew ++ fst ew')%list, (snd ew ++ snd ew')%list)
  end.

(** [SchemaValidator.validate] *)
Definition schema_validate (cols : list column_def) : res vresult :=
  match describe con ds with
  | RExc e => ROk (VResult false ["Failed to describe dataset: " ++ exn_msg e] [])
  | ROk rows =>
      let actual := dedup (map dr_name rows) in
      let expected := dedup (map col_name cols) in
      let missing := filter (fun x => negb (str_in x actual)) expected in
      let extra := filter (fun x => negb (str_in x expected)) actual in
      let errors0 := if is_empty missing then []
                     else ["Missing required columns: " ++ set_repr missing] in
      let warnings0 := if is_empty extra then []
                       else ["Extra columns found (not in contract): " ++ set_repr extra] in
      ew <- validate_columns cols rows ;;
      let errs := (errors0 ++ fst ew)%list in
      ROk (VResult (is_empty errs) errs (warnings0 ++ snd ew)%list)
  end.

End Schema.

(** *** Quality validator (quality_validator.py) *)

Record quality_rule := QualityRule {
  r_name : string;
  r_type : string;
  r_severity : string;            (* the loader defaults it to "error" *)
  r_column : option string;
  r_query : option string;
  r_expected : sval;              (* [VNull] is Python's [None] *)
  r_min_rows : option Z
}.

(** [str.format(dataset=ds)]: [{{] and [}}] are escapes, the field
    [{dataset}] is replaced, an empty field raises [IndexError], any other
    field [KeyError] (conversions and format specs are not modelled), and
    unbalanced braces [ValueError].  [field] is [Some f] inside a
    replacement field read so far as [f]. *)
Fixpoint format_aux (ds : string) (field : option string) (s : string) : res string :=
  match field, s with
  | None, EmptyString => ROk ""
  | None, String "{" (String "{" r) => t <- format_aux ds None r ;; ROk ("{" ++ t)
  | None, String "{" r => format_aux ds (Some "") r
  | None, String "}" (String "}" r) => t <- format_aux ds None r ;; ROk ("}" ++ t)
  | None, String "}" _ =>
      RExc (Exn "ValueError" "Single '}' encountered in format string")
  | None, String c r => t <- format_aux ds None r ;; ROk (String c t)
  | Some _, EmptyString =>
      RExc (Exn "ValueError" "expected '}' before end of string")
  | Some f, String "}" r =>
      if String.eqb f "dataset" then t <- format_aux ds None r ;; ROk (ds ++ t)
      else if String.eqb f "" then
        RExc (Exn "IndexError" "Replacement index 0 out of range for positional args tuple")
      else RExc (Exn "KeyError" ("'" ++ f ++ "'"))
  | Some f, String c r => format_aux ds (Some (f ++ String c "")) r
  end.

Definition py_format (q ds : string) : res string := format_aux ds None q.

(** [not rule.column]: [None] or the empty string. *)
Definition falsy_str (o : option string) : option string :=
  match o with
  | Some c => if String.eqb c "" then None else Some c
  | None => None
  end.

Section Quality.
Variable con : conn.
Variable ds : string.

(** The violation message of a rule goes to errors or warnings by the
    rule's own severity. *)
Definition by_severity (r : quality_rule) (msg : string) : list string * list string :=
  if String.eqb (r_severity r) "error" then ([msg], []) else ([], [msg]).

(** The body of the [try] block of [_validate_rule]. *)
Definition rule_body (r : quality_rule) : res (list string * list string) :=
  let name := r_name r in
  if String.eqb (r_type r) "uniqueness" then
    match falsy_str (r_column r) with
    | None => ROk (["Rule " ++ name ++ ": uniqueness rule requires column"], [])
    | Some c =>
        n <- count con (QDupCount ds c) ;;
        ROk (if (0 <? n)%Z
             then by_severity r ("Rule " ++ name ++ ": Found " ++ Z_to_string n ++
                                 " duplicate values in column " ++ c)
             else ([], []))
    end
  else if String.eqb (r_type r) "not_null" then
    match falsy_str (r_column r) with
    | None => ROk (["Rule " ++ name ++ ": not_null rule requires column"], [])
    | Some c =>
        n <- count con (QNullCount ds c) ;;
        ROk (if (0 <? n)%Z
             then by_severity r ("Rule " ++ name ++ ": Found " ++ Z_to_string n ++
                                 " NULL values in column " ++ c)
             else ([], []))
    end
  else if String.eqb (r_type r) "volume" then
    n <- count con (QRowCount ds) ;;
    ROk (match r_min_rows r with
         | Some m =>
             if (n <? m)%Z
             then by_severity r ("Rule " ++ name ++ ": Row count " ++ Z_to_string n ++
                                 " is below minimum " ++ Z_to_string m)
             else ([], [])
         | None => ([], [])
         end)
  else if String.eqb (r_type r) "custom_sql" then
    match falsy_str (r_query r) with
    | None => ROk (["Rule " ++ name ++ ": custom_sql rule requires query"], [])
    | Some q =>
        text <- py_format q ds ;;
        v <- scalar con text ;;
        ROk (match r_expected r with
             | VNull => ([], [])
             | e =>
                 if negb (py_eqb v e)
                 then by_severity r ("Rule " ++ name ++ ": Query returned " ++
                                     sval_str v ++ ", expected " ++ sval_str e)
                 else ([], [])
             end)
    end
  else ROk ([], ["Rule " ++ name ++ ": Unknown rule type " ++ r_type r]).

(** The check of a rule finds a violation, with the message that
    [_validate_rule] hands to the severity routing: the four branches of
    the [try] block that call [by_severity]. *)
Inductive finds_violation (r : quality_rule) : string -> Prop :=
| fv_uniqueness (c : string) (n : Z) :
    r_type r = "uniqueness" -> falsy_str (r_column r) = Some c ->
    count con (QDupCount ds c) = ROk n -> (0 < n)%Z ->
    finds_violation r ("Rule " ++ r_name r ++ ": Found " ++ Z_to_string n ++
                       " duplicate values in column " ++ c)
| fv_not_null (c : string) (n : Z) :
    r_type r = "not_null" -> falsy_str (r_column r) = Some c ->
    count con (QNullCount ds c) = ROk n -> (0 < n)%Z ->
    finds_violation r ("Rule " ++ r_name r ++ ": Found " ++ Z_to_string n ++
                       " NULL values in column " ++ c)
| fv_volume (n m : Z) :
    r_type r = "volume" -> count con (QRowCount ds) = ROk n ->
    r_min_rows r = Some m -> (n < m)%Z ->
    finds_violation r ("Rule " ++ r_name r ++ ": Row count " ++ Z_to_string n ++
                       " is below minimum " ++ Z_to_string m)
| fv_custom_sql (q text : string) (v e : sval) :
    r_type r = "custom_sql" -> falsy_str (r_query r) = Some q ->
    py_format q ds = ROk text -> scalar con text = ROk v ->
    r_expected r = e -> e <> VNull -> py_eqb v e = false ->
    finds_violation r ("Rule " ++ r_name r ++ ": Query returned " ++
                       sval_str v ++ ", expected " ++ sval_str e).

(** [QualityValidator._validate_rule]: an exception of the body becomes
    one error entry. *)
Definition validate_rule (r : quality_rule) : list string * list string :=
  match rule_body r with
  | ROk ew => ew
  | RExc e => (["Rule " ++ r_name r ++ ": Error executing validation: " ++ exn_msg e], [])
  end.

(** The loop of [QualityValidator.validate]: an ["error"] rule's errors
    go to errors, any other rule's errors and all warnings to warnings. *)
Fixpoint collect_rules (rules : list quality_rule) : list string * list string :=
  match rules with
  | [] => ([], [])
  | r :: rs =>
      let ew := validate_rule r in
      let acc := collect_rules rs in
      if String.eqb (r_severity r) "error"
      then ((fst ew ++ fst acc)%list, (snd ew ++ snd acc)%list)
      else (fst acc, (fst ew ++ snd ew ++ snd acc)%list)
  end.

(** [QualityValidator.validate] *)
Definition quality_validate (rules : list quality_rule) : vresult :=
  let ew := collect_rules rules in
  VResult (is_empty (fst ew)) (fst ew) (snd ew).

End Quality.

(** *** SLA validator (sla_validator.py) *)

(** [sla.freshness] and [sla.completeness]; [None] also stands for an
    empty dict, which the validator skips. *)
Record sla := SLA {
  freshness_max_age_hours : option (option Z);      (* freshness dict, its max_age_hours *)
  completeness_cfg : option (option Z * bool)
      (* completeness dict: its min_row_count, whether it has expected_growth_rate *)
}.

(** The data file as the SLA validator sees it: [None] if it does not
    exist, else its age in seconds ([datetime.now() - mtime]). *)
Definition file_age := option Z.

(** [age_hours:.1f] for an age in seconds, rounded down to tenths. *)
Definition hours_1f (secs : Z) : string :=
  let tenths := (secs / 360)%Z in
  Z_to_string (tenths / 10) ++ "." ++ Z_to_string (tenths mod 10).

Definition validate_freshness (data_path : string) (age : file_age)
    (max_age : option Z) : list string * list string :=
  match max_age with
  | None => ([], [])
  | Some mh =>
      match age with
      | Some secs =>
          (* age_hours = secs / 3600 > max_age_hours *)
          if (mh * 3600 <? secs)%Z
          then (["Data freshness violation: File is " ++ hours_1f secs ++
                 " hours old, max allowed is " ++ Z_to_string mh ++ " hours"], [])
          else ([], [])
      | None => (["Data file not found: " ++ data_path], [])
      end
  end.

Definition validate_completeness (row_count : Z) (cfg : option Z * bool)
  : list string * list string :=
  let e := match fst cfg with
           | Some m =>
               if (row_count <? m)%Z
               then ["Completeness violation: Row count " ++ Z_to_string row_count ++
                     " is below minimum " ++ Z_to_string m]
               else []
           | None => []
           end in
  let w := if snd cfg
           then ["Expected growth rate check requires historical data comparison (not implemented)"]
           else [] in
  (e, w).

(** [SLAValidator.validate] *)
Definition sla_validate (s : sla) (data_path : string) (age : file_age)
    (row_count : Z) : vresult :=
  let f := match freshness_max_age_hours s with
           | Some cfg => validate_freshness data_path age cfg
           | None => ([], [])
           end in
  let c := match completeness_cfg s with
           | Some cfg => validate_completeness row_count cfg
           | None => ([], [])
           end in
  let errs := (fst f ++ fst c)%list in
  VResult (is_empty errs) errs (snd f ++ snd c)%list.

(** *** Aggregate result and [validate_and_report] (contract_validator.py) *)

Record contract_result := ContractResult {
  cr_dataset : string;                (* result.contract.dataset *)
  schema_result : vresult;
  quality_result : vresult;
  sla_result : option vresult         (* None when validate_sla is False *)
}.

(** [ContractValidationResult.passed] *)
Definition cr_passed (r : contract_result) : bool :=
  if negb (passed (schema_result r)) then false
  else if negb (passed (quality_result r)) then false
  else match sla_result r with
       | Some s => if negb (passed s) then false else true
       | None => true
       end.

(** [ContractValidationResult.all_errors] and [all_warnings] *)
Definition all_errors (r : contract_result) : list string :=
  (errors (schema_result r) ++ errors (quality_result r) ++
   match sla_result r with Some s => errors s | None => [] end)%list.

Definition all_warnings (r : contract_result) : list string :=
  (warnings (schema_result r) ++ warnings (quality_result r) ++
   match sla_result r with Some s => warnings s | None => [] end)%list.

(** The verdict step of [ContractValidator.validate_and_report] (the log
    calls before it have no effect on the result). *)
Definition report (r : contract_result) : res bool :=
  if cr_passed r then ROk true
  else RExc (Exn "RuntimeError"
               ("Contract validation failed for " ++ cr_dataset r ++ ": " ++
                Z_to_string (Z.of_nat (List.length (all_errors r))) ++ " errors")).

(** [ContractValidator.validate]: the row count, then the three
    validators on one connection; the contract comes from the loader and
    the view over the Parquet file is the one the connection answers
    for. *)
Definition contract_validate (dataset : string) (cols : list column_def)
    (rules : list quality_rule) (s : sla) (con : conn) (ds data_path : string)
    (age : file_age) (validate_sla : bool) : res contract_result :=
  row_count <- count con (QRowCount ds) ;;
  sr <- schema_validate con ds cols ;;
  let qr := quality_validate con ds rules in
  let slr := if validate_sla then Some (sla_validate s data_path age row_count) else None in
  ROk (ContractResult dataset sr qr slr).

(** [ContractValidator.validate_and_report] *)
Definition validate_and_report (dataset : string) (cols : list column_def)
    (rules : list quality_rule) (s : sla) (con : conn) (ds data_path : string)
    (age : file_age) (validate_sla : bool) : res bool :=
  r <- contract_validate dataset cols rules s con ds data_path age validate_sla ;;
  report r.

End Contracts.

(** ** DuckDB answers on a concrete table

    The validators' COUNT queries evaluated on an in-memory table, with
    SQL's rules: [GROUP BY] puts all NULLs of a column in one group,
    comparisons and [NOT IN] skip NULLs, [LIKE '%@%.%'] holds when an
    ['@'] is followed later by a ['.']. *)
Module Table.
Import Contracts.

Definition sval_eq_dec (a b : sval) : {a = b} + {a <> b}.
Proof. decide equality; auto using bool_dec, Z.eq_dec, string_dec. Defined.

Record table := MkTable {
  t_name : string;                      (* the view's name *)
  t_columns : list (string * string);   (* column name and type *)
  t_rows : list (list sval)             (* positional cells *)
}.

Definition binder_error (col : string) : exn :=
  Exn "BinderException" ("Referenced column " ++ col ++ " not found").

Definition catalog_error (ds : string) : exn :=
  Exn "CatalogException" ("Table with name " ++ ds ++ " does not exist!").

(** The values of one column, or the binder error of an unknown name. *)
Definition column_values (t : table) (ds col : string) : res (list sval) :=
  if negb (String.eqb ds (t_name t)) then RExc (catalog_error ds)
  else if str_in col (map fst (t_columns t))
  then ROk (map (fun row => nth (str_index col (map fst (t_columns t))) row VNull)
                (t_rows t))
  else RExc (binder_error col).

Definition count_if (p : sval -> bool) (vs : list sval) : Z :=
  Z.of_nat (List.length (filter p vs)).

Definition is_null (v : sval) : bool :=
  match v with VNull => true | _ => false end.

(** [GROUP BY col HAVING COUNT( * ) > 1], counted: the distinct values,
    NULL being one of them, that occur more than once. *)
Definition dup_count (vs : list sval) : Z :=
  count_if (fun v => (1 <? count_occ sval_eq_dec vs v)%nat) (nodup sval_eq_dec vs).

Fixpoint like_email (s : string) : bool :=
  match s with
  | EmptyString => false
  | String "@" r => str_contains r "."
  | String _ r => like_email r
  end.

Definition conversion_error : exn :=
  Exn "ConversionException" "Could not convert value".

(** [col < lit] / [col > lit] on integers; NULL rows do not qualify. *)
Fixpoint count_cmp (lt : bool) (lit : sval) (vs : list sval) : res Z :=
  match vs with
  | [] => ROk 0%Z
  | v :: vs' =>
      n <- count_cmp lt lit vs' ;;
      match v, lit with
      | VNull, _ => ROk n
      | VInt a, VInt b =>
          ROk (if (if lt then (a <? b)%Z else (b <? a)%Z) then (n + 1)%Z else n)
      | _, _ => RExc conversion_error
      end
  end.

Definition count_query (t : table) (q : query) : res Z :=
  match q with
  | QNullCount ds col => vs <- column_values t ds col ;; ROk (count_if is_null vs)
  | QDupCount ds col => vs <- column_values t ds col ;; ROk (dup_count vs)
  | QBelow ds col lit => vs <- column_values t ds col ;; count_cmp true lit vs
  | QAbove ds col lit => vs <- column_values t ds col ;; count_cmp false lit vs
  | QNotIn ds col allowed =>
      vs <- column_values t ds col ;;
      ROk (count_if (fun v => negb (is_null v) &&
                              negb (str_in (sval_str v) (map sval_str allowed))) vs)
  | QNotLikeEmail ds col =>
      vs <- column_values t ds col ;;
      ROk (count_if (fun v => negb (is_null v) && negb (like_email (sval_str v))) vs)
  | QRowCount ds =>
      if String.eqb ds (t_name t) then ROk (Z.of_nat (List.length (t_rows t)))
      else RExc (catalog_error ds)
  end.

(** A connection holding the table as a view; [DESCRIBE] of a view lists
    every column as nullable.  Custom SQL is answered by [custom]. *)
Definition table_conn (t : table) (custom : string -> res sval) : conn :=
  Conn (fun ds => if String.eqb ds (t_name t)
                  then ROk (map (fun c => DescribeRow (fst c) (snd c) "YES") (t_columns t))
                  else RExc (catalog_error ds))
       (count_query t)
       custom.

End Table.

(** Variants of a contract item used to compare validator runs: a
    constraint without its [pattern] key, a rule with another severity. *)
Definition without_pattern (c : Contracts.constraint) : Contracts.constraint :=
  Contracts.Constraint (Contracts.c_not_null c) (Contracts.c_unique c)
    (Contracts.c_min_value c) (Contracts.c_max_value c)
    (Contracts.c_allowed_values c) None.

Definition with_severity (r : Contracts.quality_rule) (sev : string) : Contracts.quality_rule :=
  Contracts.QualityRule (Contracts.r_name r) (Contracts.r_type r) sev
    (Contracts.r_column r) (Contracts.r_query r) (Contracts.r_expected r)
    (Contracts.r_min_rows r).

(** ** Stage execution: [Executor.run] (executor.py) and [Driver.run],
    [Driver.run_stage], [Driver._task_map], [Driver._serialize]
    (driver.py)

    A task is given by the outcome of calling it.  The monitor's log,
    metric and progress calls are taken to succeed; they leave no trace
    in the results. *)
Module Executor.

(** [d.get(k)] and [d[k] = v] on a dict with [str] keys, kept as an
    association list in insertion order. *)
Fixpoint assoc_get {V} (k : string) (d : list (string * V)) : option V :=
  match d with
  | [] => None
  | (k', v) :: d' => if String.eqb k k' then Some v else assoc_get k d'
  end.

Fixpoint assoc_set {V} (k : string) (v : V) (d : list (string * V)) : list (string * V) :=
  match d with
  | [] => [(k, v)]
  | (k', v') :: d' =>
      if String.eqb k k' then (k, v) :: d' else (k', v') :: assoc_set k v d'
  end.

(** What calling a task returns: its result string, or the exception it
    raises. *)
Definition task := res string.

(** The loop of [Executor.run]: the names of the tasks called, in order,
    and the results dict or the exception that ended the loop (re-raised
    after logging). *)
Fixpoint run_loop (task_map : list (string * task)) (stages : list string)
    (results : list (string * string)) : list string * res (list (string * string)) :=
  match stages with
  | [] => ([], ROk results)
  | name :: rest =>
      match assoc_get name task_map with
      | None => ([], RExc (Exn "KeyError" ("No task registered for stage '" ++ name ++ "'")))
      | Some (RExc e) => ([name], RExc e)
      | Some (ROk result) =>
          let '(called, r) := run_loop task_map rest (assoc_set name result results) in
          (name :: called, r)
      end
  end.

(** [Executor.run(stages, task_map)] *)
Definition run (stages : list string) (task_map : list (string * task))
  : list string * res (list (string * string)) :=
  run_loop task_map stages [].

End Executor.

Module DriverRun.
Import Executor.

(** What [bronze_stage.run(...)], [silver_stage.run(...)] and
    [gold_stage.run(...)] return (their output list) or raise. *)
Record stage_runs := StageRuns {
  bronze_run : res (list string);
  silver_run : res (list string);
  gold_run : res (list string)
}.

(** [_serialize(metric_key, outputs)]: [",".join(outputs)] (the metric is
    recorded on the monitor). *)
Definition serialize (outputs : list string) : string := Contracts.join "," outputs.

(** [_task_map()]: each lambda runs its stage and serialises the outputs. *)
Definition task_map (sr : stage_runs) : list (string * task) :=
  [("bronze", outs <- bronze_run sr ;; ROk (serialize outs));
   ("silver", outs <- silver_run sr ;; ROk (serialize outs));
   ("gold", outs <- gold_run sr ;; ROk (serialize outs))].

(** [Driver.run_stage(stage)] *)
Definition run_stage (sr : stage_runs) (stage : string) : res string :=
  match assoc_get stage (task_map sr) with
  | None => RExc (Exn "ValueError" ("No task registered for stage '" ++ stage ++ "'"))
  | Some t => t
  end.

(** [{stage: task_map[stage] for stage in stages}] *)
Fixpoint active_tasks (tm : list (string * task)) (stages : list string)
    (acc : list (string * task)) : res (list (string * task)) :=
  match stages with
  | [] => ROk acc
  | s :: ss =>
      match assoc_get s tm with
      | None => RExc (Exn "KeyError" ("'" ++ s ++ "'"))
      | Some t => active_tasks tm ss (assoc_set s t acc)
      end
  end.

(** [Driver.run(selected)]: the tasks called and the results dict. *)
Definition run (sr : stage_runs) (selected : option string)
  : list string * res (list (string * string)) :=
  match Driver.execution_order selected with
  | RExc e => ([], RExc e)
  | ROk stages =>
      match active_tasks (task_map sr) stages [] with
      | RExc e => ([], RExc e)
      | ROk active => Executor.run stages active
      end
  end.

End DriverRun.

(** ** Timer trigger: [main] (driver/__init__.py)

    The collaborators are those of the worker: [COMBOI_CONFIG],
    [create_driver], the queue built from [driver.config.queue] and
    [queue.enqueue]; [COMBOI_START_STAGE] is the extra input. *)
Module Trigger.
Import Worker.

Definition main (H : host) (env_start_stage : option string) : list event * res unit :=
  let config_path :=
    PosixPath.path_str (match h_env_config H with
                        | Some e => e
                        | None => "configs/default.yml"
                        end) in
  let selected_stage := match env_start_stage with Some s => s | None => "all" end in
  match h_create_driver H config_path with
  | RExc e => ([ECreateDriver config_path], RExc e)
  | ROk d =>
      match Driver.execution_order (Some selected_stage) with
      | RExc e => ([ECreateDriver config_path], RExc e)
      | ROk [] => ([ECreateDriver config_path], ROk tt)     (* "No stages to enqueue" *)
      | ROk (first :: rest) =>
          match h_open_queue H d with
          | RExc e => ([ECreateDriver config_path], RExc e)
          | ROk q =>
              let m := ContMsg config_path first rest in
              match h_enqueue H q m with
              | RExc e => ([ECreateDriver config_path], RExc e)
              | ROk _ => ([ECreateDriver config_path; EEnqueue m], ROk tt)
              end
          end
      end
  end.

End Trigger.

(** ** Queue transport (pipeline/queue.py, executor/__init__.py)

    [AzureTaskQueue.enqueue] sends [json.dumps(payload)]; the worker's
    [_parse_payload] reads it back with [msg.get_json()], i.e.
    [json.loads].  The JSON document is the one of the checkpoint
    model. *)
Module Queue.
Import Checkpoint.

(** The payload dict built by the trigger and by [_enqueue_next]. *)
Definition payload_dict (m : Worker.cont_msg) : pyval :=
  PDict [(KStr "config_path", PStr (Worker.cm_config_path m));
         (KStr "stage", PStr (Worker.cm_stage m));
         (KStr "remaining", PList (map PStr (Worker.cm_remaining m)))].

(** [json.loads(json.dumps(v))] *)
Definition transmit (v : pyval) : pyval := py_of_json (json_of_py v).

(** [key in d] / [d[key]] on a dict with a [str] key. *)
Fixpoint pget (k : string) (kvs : list (pykey * pyval)) : option pyval :=
  match kvs with
  | [] => None
  | (KStr k', v) :: kvs' => if String.eqb k k' then Some v else pget k kvs'
  | _ :: kvs' => pget k kvs'
  end.

Definition as_str (v : pyval) : option string :=
  match v with PStr s => Some s | _ => None end.

Fixpoint as_str_list (l : list pyval) : option (list string) :=
  match l with
  | [] => Some []
  | x :: xs =>
      match as_str x, as_str_list xs with
      | Some s, Some ss => Some (s :: ss)
      | _, _ => None
      end
  end.

Definition as_remaining (v : pyval) : option (list string) :=
  match v with PList l => as_str_list l | _ => None end.

(** One key of the received dict: [Some None] when absent, [Some (Some x)]
    when present with a value of the modelled shape. *)
Definition opt_field {A} (conv : pyval -> option A) (k : string)
    (kvs : list (pykey * pyval)) : option (option A) :=
  match pget k kvs with
  | None => Some None
  | Some v => option_map Some (conv v)
  end.

(** The worker's view of the received dict as a [Worker.payload];
    [None] for a value outside that model (a non-dict, a non-string path
    or stage, a [remaining] that is not a list of strings). *)
Definition as_payload (v : pyval) : option Worker.payload :=
  match v with
  | PDict kvs =>
      match opt_field as_str "config_path" kvs, opt_field as_str "stage" kvs,
            opt_field as_remaining "remaining" kvs with
      | Some c, Some s, Some r => Some (Worker.Payload c s r)
      | _, _, _ => None
      end
  | _ => None
  end.

(** A continuation message as the next worker receives it. *)
Definition deliver (m : Worker.cont_msg) : option Worker.payload :=
  as_payload (transmit (payload_dict m)).

End Queue.

(** ** A scheduled pipeline run: the timer trigger, then one worker
    invocation per delivered continuation message. *)
Module Chain.
Import Worker.

(** The message an invocation enqueued, if any. *)
Fixpoint enqueued (evs : list event) : option cont_msg :=
  match evs with
  | [] => None
  | EEnqueue m :: _ => Some m
  | _ :: evs' => enqueued evs'
  end.

(** The stages run, in order. *)
Definition stages_run (evs : list event) : list string :=
  flat_map (fun ev => match ev with ERunStage s => [s] | _ => [] end) evs.

Section Run.
Variable H : host.

(** Worker invocations one after the other, each on the message the
    previous one enqueued; at most [fuel] of them.  A message outside the
    payload model ends the run (the queue round trip shows none occurs). *)
Fixpoint follow (fuel : nat) (p : payload) : list event * res unit :=
  match fuel with
  | O => ([], ROk tt)
  | S n =>
      let '(evs, r) := Worker.main H p in
      match r with
      | RExc e => (evs, RExc e)
      | ROk _ =>
          match enqueued evs with
          | None => (evs, ROk tt)
          | Some m =>
              match Queue.deliver m with
              | None => (evs, ROk tt)
              | Some p' => let '(evs', r') := follow n p' in ((evs ++ evs')%list, r')
              end
          end
      end
  end.

(** The timer trigger, then the worker invocations on its message. *)
Definition scheduled (env_start_stage : option string) (fuel : nat) : list event * res unit :=
  let '(evs, r) := Trigger.main H env_start_stage in
  match r with
  | RExc e => (evs, RExc e)
  | ROk _ =>
      match enqueued evs with
      | None => (evs, ROk tt)
      | Some m =>
          match Queue.deliver m with
          | None => (evs, ROk tt)
          | Some p => let '(evs', r') := follow fuel p in ((evs ++ evs')%list, r')
          end
      end
  end.

End Run.
End Chain.

(** ** Contract loading: [ContractLoader.load] (contract_loader.py)

    The YAML document is a Python value of the checkpoint model (what
    [yaml.safe_load] returns); the file system maps a path to nothing
    (no file), a YAML error, or the loaded value. *)
Module Loader.
Import Checkpoint.

Definition ends_with_slash (s : string) : bool :=
  match String.get (String.length s - 1) s with
  | Some c => (0 <? String.length s)%nat && Ascii.eqb c "/"%char
  | None => false
  end.

(** [posixpath.join(a, b)], which [Path(a) / b] uses before normalising. *)
Definition posix_join (a b : string) : string :=
  match b with
  | String "/" _ => b
  | _ => if String.eqb a "" || ends_with_slash a then a ++ b else a ++ "/" ++ b
  end.

(** Python truthiness ([not contract_data]). *)
Definition truthy (v : pyval) : bool :=
  match v with
  | PNone => false
  | PBool b => b
  | PInt z => negb (Z.eqb z 0)
  | PFloat x => negb (PrimFloat.eqb x 0%float)
  | PStr s => negb (String.eqb s "")
  | PList l | PTuple l => match l with [] => false | _ => true end
  | PDict kvs => match kvs with [] => false | _ => true end
  end.

(** [field in contract_data] *)
Definition py_in (f : string) (v : pyval) : res bool :=
  match v with
  | PDict kvs => ROk (match Queue.pget f kvs with Some _ => true | None => false end)
  | PList l | PTuple l =>
      ROk (existsb (fun x => match x with PStr s => String.eqb s f | _ => false end) l)
  | PStr s => ROk (str_contains s f)
  | PNone => RExc (Exn "TypeError" "argument of type 'NoneType' is not iterable")
  | PBool _ => RExc (Exn "TypeError" "argument of type 'bool' is not iterable")
  | PInt _ => RExc (Exn "TypeError" "argument of type 'int' is not iterable")
  | PFloat _ => RExc (Exn "TypeError" "argument of type 'float' is not iterable")
  end.

(** [contract_data[k]] *)
Definition py_getitem (v : pyval) (k : string) : res pyval :=
  match v with
  | PDict kvs =>
      match Queue.pget k kvs with
      | Some x => ROk x
      | None => RExc (Exn "KeyError" ("'" ++ k ++ "'"))
      end
  | PList _ => RExc (Exn "TypeError" "list indices must be integers or slices, not str")
  | PTuple _ => RExc (Exn "TypeError" "tuple indices must be integers or slices, not str")
  | PStr _ => RExc (Exn "TypeError" "string indices must be integers, not 'str'")
  | PNone => RExc (Exn "TypeError" "'NoneType' object is not subscriptable")
  | PBool _ => RExc (Exn "TypeError" "'bool' object is not subscriptable")
  | PInt _ => RExc (Exn "TypeError" "'int' object is not subscriptable")
  | PFloat _ => RExc (Exn "TypeError" "'float' object is not subscriptable")
  end.

(** [contract_data.get(k, default)] *)
Definition py_get (v : pyval) (k : string) (dflt : pyval) : res pyval :=
  match v with
  | PDict kvs => ROk (match Queue.pget k kvs with Some x => x | None => dflt end)
  | PList _ => RExc (Exn "AttributeError" "'list' object has no attribute 'get'")
  | PTuple _ => RExc (Exn "AttributeError" "'tuple' object has no attribute 'get'")
  | PStr _ => RExc (Exn "AttributeError" "'str' object has no attribute 'get'")
  | PNone => RExc (Exn "AttributeError" "'NoneType' object has no attribute 'get'")
  | PBool _ => RExc (Exn "AttributeError" "'bool' object has no attribute 'get'")
  | PInt _ => RExc (Exn "AttributeError" "'int' object has no attribute 'get'")
  | PFloat _ => RExc (Exn "AttributeError" "'float' object has no attribute 'get'")
  end.

Record data_contract := DataContract {
  dc_version : pyval;
  dc_dataset : pyval;
  dc_stage : pyval;
  dc_owner : pyval;
  dc_description : pyval;
  dc_schema : pyval;
  dc_quality_rules : pyval;
  dc_sla : pyval;
  dc_evolution : pyval
}.

Definition required_fields : list string :=
  ["version"; "dataset"; "stage"; "owner"; "description"; "schema";
   "quality_rules"; "sla"; "evolution"].

(** [[field for field in required_fields if field not in contract_data]] *)
Fixpoint missing_fields (v : pyval) (fields : list string) : res (list string) :=
  match fields with
  | [] => ROk []
  | f :: fs =>
      b <- py_in f v ;;
      rest <- missing_fields v fs ;;
      ROk (if b then rest else f :: rest)
  end.

(** [ContractLoader(contracts_path).load(contract_name)] *)
Definition load (fs : string -> option (res pyval)) (contracts_path contract_name : string)
  : res data_contract :=
  let contract_file :=
    PosixPath.path_str (posix_join contracts_path (contract_name ++ ".yml")) in
  match fs contract_file with
  | None => RExc (Exn "FileNotFoundError" ("Contract file not found: " ++ contract_file))
  | Some (RExc e) => RExc e
  | Some (ROk data) =>
      if negb (truthy data)
      then RExc (Exn "ValueError" ("Contract file is empty: " ++ contract_file))
      else
        missing <- missing_fields data required_fields ;;
        match missing with
        | _ :: _ =>
            RExc (Exn "ValueError" ("Contract missing required fields: " ++
                                    Contracts.list_repr (map Contracts.VStr missing)))
        | [] =>
            version <- py_getitem data "version" ;;
            dataset <- py_getitem data "dataset" ;;
            stage <- py_getitem data "stage" ;;
            owner <- py_getitem data "owner" ;;
            description <- py_getitem data "description" ;;
            schema <- py_getitem data "schema" ;;
            quality_rules <- py_get data "quality_rules" (PList []) ;;
            sla <- py_get data "sla" (PDict []) ;;
            evolution <- py_get data "evolution" (PDict []) ;;
            ROk (DataContract version dataset stage owner description schema
                              quality_rules sla evolution)
        end
  end.

End Loader.

(* ================================================================== *)
(** * Properties *)

(** ** Stage sequencer *)

(** C1 (as stated): every name outside the enumeration fails with an
    unknown-stage error.  The empty string is such a name, yet it yields
    the full order. *)
Lemma C1_execution_order_empty_name :
  ~ (forall name : string,
       str_in (lower name) Driver.order = false ->
       exists e, Driver.execution_order (Some name) = RExc e).
Proof.
  intros H. destruct (H "" eq_refl) as [e He]. discriminate He.
Qed.

(** C1 (amended): a name whose lowercase is bronze, silver or gold yields
    the suffix of [bronze; silver; gold] starting at it; [None], the empty
    string and ["all"] yield the full order; any other name fails with
    [ValueError("Unknown stage <name>")]. *)
Theorem C1_execution_order_spec :
  (forall s : string,
      str_in (lower s) Driver.order = true ->
      exists l pre,
        Driver.execution_order (Some s) = ROk l /\
        Driver.order = (pre ++ l)%list /\ hd_error l = Some (lower s)) /\
  Driver.execution_order None = ROk Driver.order /\
  Driver.execution_order (Some "") = ROk Driver.order /\
  Driver.execution_order (Some "all") = ROk Driver.order /\
  (forall s : string,
      s <> "" -> s <> "all" -> str_in (lower s) Driver.order = false ->
      Driver.execution_order (Some s) =
        RExc (Exn "ValueError" ("Unknown stage " ++ s))).
Proof.
  split; [|split; [reflexivity|split; [reflexivity|split; [reflexivity|]]]].
  - intros s Hin.
    assert (Hne : String.eqb s "" || String.eqb s "all" = false).
    { destruct (String.eqb_spec s ""); [subst; discriminate Hin|].
      destruct (String.eqb_spec s "all"); [subst; discriminate Hin|].
      reflexivity. }
    unfold Driver.execution_order. rewrite Hne, Hin. simpl.
    unfold str_in, Driver.order in Hin. simpl in Hin.
    destruct (String.eqb_spec (lower s) "bronze") as [E|_];
      [| destruct (String.eqb_spec (lower s) "silver") as [E|_];
         [| destruct (String.eqb_spec (lower s) "gold") as [E|_];
            [| discriminate Hin]]];
      rewrite E; simpl.
    + exists ["bronze"; "silver"; "gold"], []. auto.
    + exists ["silver"; "gold"], ["bronze"]. auto.
    + exists ["gold"], ["bronze"; "silver"]. auto.
  - intros s H1 H2 Hout.
    unfold Driver.execution_order.
    apply String.eqb_neq in H1, H2. rewrite H1, H2, Hout. reflexivity.
Qed.

(** ** Worker continuation *)

(** C2 (as stated): the enqueued message carries the received
    [config_path] unchanged.  The worker wraps it in [pathlib.Path] and
    sends [str(config_path)], so ["./configs/default.yml"] is sent on as
    ["configs/default.yml"]. *)
Lemma C2_enqueued_config_path_normalised :
  ~ (forall (H : Worker.host) (c s r0 : string) (rs : list string) m,
       In (Worker.EEnqueue m)
          (fst (Worker.main H (Worker.Payload (Some c) (Some s) (Some (r0 :: rs))))) ->
       m = Worker.ContMsg c r0 rs).
Proof.
  intros Hall.
  specialize (Hall Worker.ok_host "./configs/default.yml" "bronze" "silver" ["gold"]
                (Worker.ContMsg "configs/default.yml" "silver" ["gold"])).
  assert (E : Worker.ContMsg "configs/default.yml" "silver" ["gold"] =
              Worker.ContMsg "./configs/default.yml" "silver" ["gold"]).
  { apply Hall. vm_compute. right. right. left. reflexivity. }
  injection E as E. discriminate E.
Qed.

(** C2 (amended): once the configuration at [str(Path(config_path))]
    resolves to a driver, the worker runs [run_stage(stage)] exactly once,
    first; after it, the only possible further effect is one enqueue, which
    happens only if [run_stage] returned and [remaining] is non-empty, and
    whose message is [{str(Path(config_path)), remaining[0],
    remaining[1:]}]; it does happen when the queue accepts it; a raising
    [run_stage] makes the invocation raise the same exception. *)
Theorem C2_worker_continuation (H : Worker.host) (c s : string)
    (rem : list string) (d : Worker.h_driver H) :
  Worker.h_create_driver H (PosixPath.path_str c) = ROk d ->
  let inv := Worker.main H (Worker.Payload (Some c) (Some s) (Some rem)) in
  exists post,
    fst inv = ([Worker.ECreateDriver (PosixPath.path_str c); Worker.ERunStage s] ++ post)%list /\
    List.length post <= 1 /\
    (forall ev, In ev post ->
       exists r0 rs out,
         ev = Worker.EEnqueue (Worker.ContMsg (PosixPath.path_str c) r0 rs) /\
         rem = r0 :: rs /\ Worker.h_run_stage H d s = ROk out) /\
    (forall out r0 rs q,
       Worker.h_run_stage H d s = ROk out -> rem = r0 :: rs ->
       Worker.h_open_queue H d = ROk q ->
       Worker.h_enqueue H q (Worker.ContMsg (PosixPath.path_str c) r0 rs) = ROk tt ->
       post = [Worker.EEnqueue (Worker.ContMsg (PosixPath.path_str c) r0 rs)]) /\
    (forall e, Worker.h_run_stage H d s = RExc e -> snd inv = RExc e).
Proof.
  intros Hd inv. subst inv. unfold Worker.main. simpl. rewrite Hd.
  destruct (Worker.h_run_stage H d s) as [out|e] eqn:Hr.
  - destruct rem as [|r0 rs].
    + exists []. split; [simpl; rewrite ?app_nil_r; reflexivity|].
      split; [simpl; lia|]. split; [intros ev []|].
      split; [intros ? ? ? ? _ Habs; discriminate Habs|].
      intros e He. discriminate He.
    + unfold Worker.enqueue_next.
      destruct (Worker.h_open_queue H d) as [q|e] eqn:Hq.
      * destruct (Worker.h_enqueue H q (Worker.ContMsg (PosixPath.path_str c) r0 rs))
          as [[]|e] eqn:He.
        -- exists [Worker.EEnqueue (Worker.ContMsg (PosixPath.path_str c) r0 rs)].
           split; [reflexivity|]. split; [simpl; lia|].
           split; [intros ev [<-|[]]; exists r0, rs, out; auto|].
           split; [intros ? ? ? ? _ Hrem _ _; injection Hrem as -> ->; reflexivity|].
           intros e' He'. discriminate He'.
        -- exists []. split; [reflexivity|]. split; [simpl; lia|].
           split; [intros ev []|].
           split; [|intros e' He'; discriminate He'].
           intros out' r0' rs' q' _ Hrem Hq' He'.
           injection Hrem as -> ->. injection Hq' as <-.
           rewrite He in He'. discriminate He'.
      * exists []. split; [reflexivity|]. split; [simpl; lia|].
        split; [intros ev []|].
        split; [|intros e' He'; discriminate He'].
        intros out' r0' rs' q' _ _ Hq' _. discriminate Hq'.
  - exists []. split; [simpl; rewrite ?app_nil_r; reflexivity|].
    split; [simpl; lia|]. split; [intros ev []|].
    split; [intros ? ? ? ? Habs; discriminate Habs|].
    intros e' He'. injection He' as ->. reflexivity.
Qed.

Lemma C2_worker_continuation_witness :
  Worker.h_create_driver Worker.ok_host (PosixPath.path_str "./configs/default.yml") = ROk tt /\
  exists post,
    fst (Worker.main Worker.ok_host
           (Worker.Payload (Some "./configs/default.yml") (Some "bronze") (Some ["silver"; "gold"])))
      = ([Worker.ECreateDriver (PosixPath.path_str "./configs/default.yml");
          Worker.ERunStage "bronze"] ++ post)%list /\
    List.length post <= 1.
Proof.
  split; [reflexivity|].
  destruct (C2_worker_continuation Worker.ok_host "./configs/default.yml" "bronze"
              ["silver"; "gold"] tt eq_refl) as [post [E [L _]]].
  exists post. split; [exact E | exact L].
Defined.

(** ** Checkpoint store *)

Module CheckpointFacts.
Import Checkpoint.
Local Open Scope list_scope.

Section Induction.
Variable P : pyval -> Prop.
Hypothesis HNone : P PNone.
Hypothesis HBool : forall b, P (PBool b).
Hypothesis HInt : forall z, P (PInt z).
Hypothesis HFloat : forall x, P (PFloat x).
Hypothesis HStr : forall s, P (PStr s).
Hypothesis HList : forall l, Forall P l -> P (PList l).
Hypothesis HTuple : forall l, Forall P l -> P (PTuple l).
Hypothesis HDict : forall kvs, Forall (fun kv => P (snd kv)) kvs -> P (PDict kvs).

(** Induction on Python values through their nested lists. *)
Fixpoint pyval_rect' (v : pyval) : P v :=
  match v with
  | PNone => HNone
  | PBool b => HBool b
  | PInt z => HInt z
  | PFloat x => HFloat x
  | PStr s => HStr s
  | PList l =>
      HList l ((fix go (l : list pyval) : Forall P l :=
                  match l with
                  | [] => Forall_nil _
                  | x :: xs => Forall_cons _ (pyval_rect' x) (go xs)
                  end) l)
  | PTuple l =>
      HTuple l ((fix go (l : list pyval) : Forall P l :=
                   match l with
                   | [] => Forall_nil _
                   | x :: xs => Forall_cons _ (pyval_rect' x) (go xs)
                   end) l)
  | PDict kvs =>
      HDict kvs ((fix go (l : list (pykey * pyval)) :
                    Forall (fun kv => P (snd kv)) l :=
                    match l with
                    | [] => Forall_nil _
                    | (k, x) :: xs =>
                        @Forall_cons _ (fun kv => P (snd kv)) (k, x) xs
                                     (pyval_rect' x) (go xs)
                    end) kvs)
  end.
End Induction.

Definition step (acc : sdict) (kv : string * pyval) : sdict :=
  dict_set (fst kv) (snd kv) acc.

Lemma dict_set_absent (k : string) (v : pyval) (m : sdict) :
  ~ In k (map fst m) -> dict_set k v m = m ++ [(k, v)].
Proof.
  induction m as [|[k' v'] m IH]; simpl; intros Hk; [reflexivity|].
  destruct (String.eqb_spec k k') as [->|Hne]; [exfalso; auto|].
  rewrite IH; auto.
Qed.

Lemma dict_set_keys (k x : string) (v : pyval) (m : sdict) :
  In x (map fst (dict_set k v m)) -> x = k \/ In x (map fst m).
Proof.
  induction m as [|[k' v'] m IH]; simpl.
  - intros [->|[]]. auto.
  - destruct (String.eqb k k'); simpl.
    + intros [->|H]; auto.
    + intros [->|H]; auto. destruct (IH H); auto.
Qed.

Lemma dict_set_nodup (k : string) (v : pyval) (m : sdict) :
  NoDup (map fst m) -> NoDup (map fst (dict_set k v m)).
Proof.
  induction m as [|[k' v'] m IH]; simpl; intros Hnd.
  - constructor; [intros []|constructor].
  - inversion Hnd as [|? ? Hn Hnd']; subst.
    destruct (String.eqb_spec k k') as [->|Hne]; simpl.
    + constructor; assumption.
    + constructor; [|auto].
      intros Hin. destruct (dict_set_keys _ _ _ _ Hin); [congruence|auto].
Qed.

Lemma fold_step_nodup (l acc : sdict) :
  NoDup (map fst acc) -> NoDup (map fst (fold_left step l acc)).
Proof.
  revert acc. induction l as [|kv l IH]; simpl; intros acc H; [exact H|].
  apply IH. apply dict_set_nodup. exact H.
Qed.

Lemma fold_step_keys (x : string) (l acc : sdict) :
  In x (map fst (fold_left step l acc)) -> In x (map fst l) \/ In x (map fst acc).
Proof.
  revert acc. induction l as [|[k v] l IH]; simpl; intros acc H; [auto|].
  destruct (IH _ H) as [H'|H']; [auto|].
  destruct (dict_set_keys _ _ _ _ H'); auto.
Qed.

(** Distinct keys are kept in place by [dict(pairs)]. *)
Lemma fold_step_distinct (l acc : sdict) :
  NoDup (map fst (acc ++ l)) -> fold_left step l acc = acc ++ l.
Proof.
  revert acc. induction l as [|[k v] l IH]; simpl; intros acc Hnd.
  - rewrite app_nil_r. reflexivity.
  - unfold step at 2; simpl. rewrite dict_set_absent.
    + rewrite IH; [rewrite <- app_assoc; reflexivity|].
      rewrite <- app_assoc. exact Hnd.
    + rewrite map_app in Hnd. simpl in Hnd.
      apply NoDup_remove_2 in Hnd. rewrite in_app_iff in Hnd. tauto.
Qed.

Lemma dict_get_absent (k : string) (d : pyval) (m : sdict) :
  ~ In k (map fst m) -> dict_get k d m = d.
Proof.
  induction m as [|[k' v'] m IH]; simpl; intros Hk; [reflexivity|].
  destruct (String.eqb_spec k k') as [->|_]; [exfalso; auto|auto].
Qed.

Lemma dict_get_set_map (g : pyval -> pyval) (k : string) (d v : pyval) (m : sdict) :
  dict_get k d (map (fun kv => (fst kv, g (snd kv))) (dict_set k v m)) = g v.
Proof.
  induction m as [|[k' v'] m IH]; simpl.
  - rewrite String.eqb_refl. reflexivity.
  - destruct (String.eqb k k') eqn:E; simpl.
    + rewrite String.eqb_refl. reflexivity.
    + rewrite E. exact IH.
Qed.

Lemma read_nodup (f : file) : NoDup (map fst (read f)).
Proof. apply fold_step_nodup. constructor. Qed.

Lemma read_keys (x : string) (f : file) :
  In x (map fst (read f)) -> In x (map fst f).
Proof.
  unfold read, dict_of_pairs. intros H.
  destruct (fold_step_keys _ _ _ H) as [H'|[]].
  rewrite map_map in H'. exact H'.
Qed.

Lemma write_keys (d : sdict) : map fst (write d) = map fst d.
Proof. unfold write. rewrite map_map. reflexivity. Qed.

(** Reading back a written dict gives the JSON round trip of each value. *)
Lemma read_write (d : sdict) :
  NoDup (map fst d) ->
  read (write d) = map (fun kv => (fst kv, py_of_json (json_of_py (snd kv)))) d.
Proof.
  intros Hnd. unfold read, write, dict_of_pairs. rewrite map_map. simpl.
  apply (fold_step_distinct _ []). simpl. rewrite map_map. exact Hnd.
Qed.

Lemma run_keys (k : string) (ops : list op) (f : file) :
  ~ In k (map fst f) -> (forall v, ~ In (OUpdate k v) ops) ->
  ~ In k (map fst (run ops f)).
Proof.
  revert f. induction ops as [|o ops IH]; simpl; intros f Hk Hops; [exact Hk|].
  apply IH; [|intros v Hv; apply (Hops v); right; exact Hv].
  destruct o as [k' d|k' v]; simpl.
  - rewrite write_keys. intros H. apply Hk. apply read_keys. exact H.
  - unfold update. rewrite write_keys. intros H.
    destruct (dict_set_keys _ _ _ _ H) as [->|H'].
    + apply (Hops v). left. reflexivity.
    + apply Hk. apply read_keys. exact H'.
Qed.

Lemma str_keys_distinct_roundtrip (kvs : list (pykey * pyval)) (seen : list string) :
  str_keys_distinct seen (map fst kvs) = true ->
  Forall (fun kv => py_of_json (json_of_py (snd kv)) = snd kv) kvs ->
  let l := map (fun kv => match kv with
                          | (k, x) => (key_str k, py_of_json (json_of_py x))
                          end) kvs in
  NoDup (map fst l) /\ (forall s, In s (map fst l) -> ~ In s seen) /\
  map (fun kv => (KStr (fst kv), snd kv)) l = kvs.
Proof.
  revert seen. induction kvs as [|[k x] kvs IH]; intros seen Hd Hf; simpl.
  - split; [constructor|]. split; [intros _ []|reflexivity].
  - destruct k as [s| | |]; simpl in Hd; try discriminate Hd.
    apply andb_true_iff in Hd as [Hs Hd].
    inversion Hf as [|? ? Hx Hf']; subst. simpl in Hx.
    destruct (IH (s :: seen) Hd Hf') as [Hnd [Hdisj Hmap]].
    split; [|split].
    + constructor; [|exact Hnd]. intros Hin. apply (Hdisj s Hin). left. reflexivity.
    + intros s' [<-|Hin].
      * intros Hs'. apply negb_true_iff in Hs.
        assert (Hex : existsb (String.eqb s) seen = true).
        { apply existsb_exists. exists s. split; [exact Hs'|apply String.eqb_refl]. }
        congruence.
      * intros Hs'. apply (Hdisj s' Hin). right. exact Hs'.
    + rewrite Hx, Hmap. reflexivity.
Qed.

(** JSON round trip is the identity on values without tuples whose dicts
    have distinct [str] keys. *)
Lemma roundtrip_normal (v : pyval) :
  json_normal v = true -> py_of_json (json_of_py v) = v.
Proof.
  induction v as [| b | z | x | s | l IHl | l IHl | kvs IHkvs] using pyval_rect';
    simpl; intros Hn; try reflexivity; try discriminate Hn.
  - f_equal. rewrite map_map.
    induction l as [|x l IH]; simpl in *; [reflexivity|].
    apply andb_true_iff in Hn as [H1 H2]. inversion IHl; subst.
    f_equal; auto.
  - apply andb_true_iff in Hn as [Hd Hv].
    assert (Hf : Forall (fun kv => py_of_json (json_of_py (snd kv)) = snd kv) kvs).
    { clear Hd. induction kvs as [|[k x] kvs IH]; [constructor|].
      simpl in Hv. apply andb_true_iff in Hv as [Hx Hv].
      inversion IHkvs as [|? ? Hx' Hr]; subst.
      constructor; [apply Hx'; exact Hx|apply IH; assumption]. }
    destruct (str_keys_distinct_roundtrip kvs [] Hd Hf) as [Hnd [_ Hmap]].
    f_equal. rewrite map_map. unfold dict_of_pairs.
    rewrite (map_ext
               (fun x => let '(k, x0) := let '(k, x0) := x in (key_str k, json_of_py x0) in
                         (k, py_of_json x0))
               (fun kv => match kv with
                          | (k, x) => (key_str k, py_of_json (json_of_py x))
                          end)) by (intros [? ?]; reflexivity).
    fold step. rewrite (fold_step_distinct _ []) by exact Hnd. exact Hmap.
Qed.
End CheckpointFacts.

(** C8 (as stated): after [update(k, v)], [get(k, d)] returns [v] for
    every JSON-serialisable [v].  A tuple is serialisable but is read
    back from the JSON document as a list. *)
Lemma C8_tuple_comes_back_as_list :
  fst (Checkpoint.get "k" Checkpoint.PNone
         (Checkpoint.update "k" (Checkpoint.PTuple [Checkpoint.PInt 1])
            (Checkpoint.init None)))
    = Checkpoint.PList [Checkpoint.PInt 1] /\
  ~ (forall (f : Checkpoint.file) (k : string) (v d : Checkpoint.pyval),
       fst (Checkpoint.get k d (Checkpoint.update k v f)) = v).
Proof.
  split; [vm_compute; reflexivity|].
  intros H.
  specialize (H (Checkpoint.init None) "k" (Checkpoint.PTuple [Checkpoint.PInt 1])
                Checkpoint.PNone).
  vm_compute in H. discriminate H.
Qed.

(** C8 (amended): after [update(k, v)] on any checkpoint document,
    [get(k, d)] returns the JSON round trip of [v] and never [d]; that
    round trip is [v]'s value when [v] has no tuples and its dicts have
    distinct [str] keys; a float comes back as the same double, which
    compares equal ([==]) to the one written unless it is a NaN; on a
    fresh store, [get(k, d)] returns [d] after any sequence of operations
    none of which updates [k]. *)
Theorem C8_checkpoint_roundtrip :
  (forall (f : Checkpoint.file) (k : string) (v d : Checkpoint.pyval),
     fst (Checkpoint.get k d (Checkpoint.update k v f)) =
       Checkpoint.py_of_json (Checkpoint.json_of_py v)) /\
  (forall v : Checkpoint.pyval,
     Checkpoint.json_normal v = true ->
     Checkpoint.py_of_json (Checkpoint.json_of_py v) = v) /\
  (forall (f : Checkpoint.file) (k : string) (x : float) (d : Checkpoint.pyval),
     exists y, fst (Checkpoint.get k d (Checkpoint.update k (Checkpoint.PFloat x) f)) =
                 Checkpoint.PFloat y /\
               PrimFloat.eqb y x = negb (PrimFloat.is_nan x)) /\
  (forall (ops : list Checkpoint.op) (k : string) (d : Checkpoint.pyval),
     (forall v, ~ In (Checkpoint.OUpdate k v) ops) ->
     fst (Checkpoint.get k d (Checkpoint.run ops (Checkpoint.init None))) = d).
Proof.
  assert (Hget : forall (f : Checkpoint.file) (k : string) (v d : Checkpoint.pyval),
             fst (Checkpoint.get k d (Checkpoint.update k v f)) =
               Checkpoint.py_of_json (Checkpoint.json_of_py v)).
  { intros f k v d. unfold Checkpoint.get, Checkpoint.update. simpl.
    rewrite CheckpointFacts.read_write
      by (apply CheckpointFacts.dict_set_nodup, CheckpointFacts.read_nodup).
    apply (CheckpointFacts.dict_get_set_map
             (fun x => Checkpoint.py_of_json (Checkpoint.json_of_py x))). }
  split; [exact Hget|]. split; [|split].
  - exact CheckpointFacts.roundtrip_normal.
  - intros f k x d. exists x. split; [exact (Hget f k (Checkpoint.PFloat x) d)|].
    unfold PrimFloat.is_nan. rewrite negb_involutive. reflexivity.
  - intros ops k d Hops. unfold Checkpoint.get. simpl.
    apply CheckpointFacts.dict_get_absent. intros Hin.
    apply CheckpointFacts.read_keys in Hin.
    exact (CheckpointFacts.run_keys k ops (Checkpoint.init None) (fun H => H) Hops Hin).
Qed.

Lemma C8_checkpoint_roundtrip_witness :
  Checkpoint.json_normal
    (Checkpoint.PDict [(Checkpoint.KStr "orders", Checkpoint.PStr "2024-01-01")]) = true /\
  Checkpoint.py_of_json
    (Checkpoint.json_of_py
       (Checkpoint.PDict [(Checkpoint.KStr "orders", Checkpoint.PStr "2024-01-01")]))
    = Checkpoint.PDict [(Checkpoint.KStr "orders", Checkpoint.PStr "2024-01-01")] /\
  fst (Checkpoint.get "k" (Checkpoint.PInt 0)
         (Checkpoint.run [Checkpoint.OUpdate "other" (Checkpoint.PInt 5);
                          Checkpoint.OGet "k" Checkpoint.PNone]
                         (Checkpoint.init None))) = Checkpoint.PInt 0 /\
  exists y, fst (Checkpoint.get "watermark" Checkpoint.PNone
                   (Checkpoint.update "watermark" (Checkpoint.PFloat PrimFloat.nan)
                      (Checkpoint.init None))) = Checkpoint.PFloat y /\
            PrimFloat.eqb y PrimFloat.nan = false.
Proof.
  destruct C8_checkpoint_roundtrip as [_ [Hn [Hfl Hfresh]]].
  split; [reflexivity|]. split; [|split].
  - apply Hn. reflexivity.
  - apply Hfresh. intros v [H|[H|[]]]; discriminate H.
  - exact (Hfl (Checkpoint.init None) "watermark" PrimFloat.nan Checkpoint.PNone).
Defined.

(** ** Contract validation engine *)

Module ContractFacts.
Import Contracts.
Local Open Scope list_scope.

Lemma schema_passed (con : conn) (ds : string) (cols : list column_def) (r : vresult) :
  schema_validate con ds cols = ROk r -> passed r = is_empty (errors r).
Proof.
  unfold schema_validate. destruct (describe con ds) as [rows|e].
  - destruct (validate_columns con ds cols rows) as [ew|e]; simpl; intros H;
      inversion H; reflexivity.
  - intros H. inversion H. reflexivity.
Qed.

Lemma quality_passed (con : conn) (ds : string) (rules : list quality_rule) :
  passed (quality_validate con ds rules) = is_empty (errors (quality_validate con ds rules)).
Proof. reflexivity. Qed.

Lemma sla_passed (s : sla) (path : string) (age : file_age) (rc : Z) :
  passed (sla_validate s path age rc) = is_empty (errors (sla_validate s path age rc)).
Proof. reflexivity. Qed.

Lemma is_empty_app {A} (l1 l2 : list A) :
  is_empty (l1 ++ l2) = is_empty l1 && is_empty l2.
Proof. destruct l1; reflexivity. Qed.

Lemma collect_app (con : conn) (ds : string) (l1 l2 : list quality_rule) :
  collect_rules con ds (l1 ++ l2) =
    (fst (collect_rules con ds l1) ++ fst (collect_rules con ds l2),
     snd (collect_rules con ds l1) ++ snd (collect_rules con ds l2)).
Proof.
  induction l1 as [|r l1 IH]; simpl.
  - destruct (collect_rules con ds l2); reflexivity.
  - rewrite IH. simpl. destruct (String.eqb (r_severity r) "error"); simpl;
      rewrite ?app_assoc; reflexivity.
Qed.

(** The rule outcome inside a list of rules, split around it. *)
Lemma quality_split (con : conn) (ds : string) (rs1 rs2 : list quality_rule)
    (r : quality_rule) :
  let q1 := collect_rules con ds rs1 in
  let q2 := collect_rules con ds rs2 in
  let ew := validate_rule con ds r in
  quality_validate con ds (rs1 ++ r :: rs2) =
    if String.eqb (r_severity r) "error"
    then VResult (is_empty (fst q1 ++ fst ew ++ fst q2))
                 (fst q1 ++ fst ew ++ fst q2) (snd q1 ++ snd ew ++ snd q2)
    else VResult (is_empty (fst q1 ++ fst q2))
                 (fst q1 ++ fst q2) (snd q1 ++ fst ew ++ snd ew ++ snd q2).
Proof.
  intros q1 q2 ew. unfold quality_validate. rewrite collect_app. simpl.
  destruct (String.eqb (r_severity r) "error"); reflexivity.
Qed.

Lemma quality_app (con : conn) (ds : string) (rs1 rs2 : list quality_rule) :
  errors (quality_validate con ds (rs1 ++ rs2)) =
    errors (quality_validate con ds rs1) ++ errors (quality_validate con ds rs2) /\
  warnings (quality_validate con ds (rs1 ++ rs2)) =
    warnings (quality_validate con ds rs1) ++ warnings (quality_validate con ds rs2).
Proof. unfold quality_validate. rewrite collect_app. split; reflexivity. Qed.

Lemma contract_passed (dataset : string) (cols : list column_def)
    (rules : list quality_rule) (s : sla) (con : conn) (ds path : string)
    (age : file_age) (vs : bool) (r : contract_result) :
  contract_validate dataset cols rules s con ds path age vs = ROk r ->
  cr_passed r = is_empty (all_errors r).
Proof.
  unfold contract_validate.
  destruct (count con (QRowCount ds)) as [rc|e]; simpl; [|discriminate].
  destruct (schema_validate con ds cols) as [sr|e] eqn:Hs; simpl; [|discriminate].
  intros H. injection H as <-.
  unfold cr_passed, all_errors. cbn [schema_result quality_result sla_result].
  rewrite (schema_passed _ _ _ _ Hs), quality_passed, !is_empty_app.
  destruct (is_empty (errors sr)), (is_empty (errors (quality_validate con ds rules)));
    destruct vs; try rewrite sla_passed; simpl; try reflexivity;
    match goal with |- context [is_empty ?l] => destruct (is_empty l) end;
    reflexivity.
Qed.

Lemma dup_count_pos (vs : list sval) :
  (0 < Table.dup_count vs)%Z <->
  exists v, (1 < count_occ Table.sval_eq_dec vs v)%nat.
Proof.
  unfold Table.dup_count, Table.count_if. split.
  - intros H. destruct (filter _ _) as [|v l] eqn:E; [simpl in H; lia|].
    assert (Hv : In v (filter (fun v => (1 <? count_occ Table.sval_eq_dec vs v)%nat)
                                (nodup Table.sval_eq_dec vs)))
      by (rewrite E; left; reflexivity).
    apply filter_In in Hv as [_ Hv]. apply Nat.ltb_lt in Hv. eauto.
  - intros [v Hv].
    assert (Hin : In v (filter (fun v => (1 <? count_occ Table.sval_eq_dec vs v)%nat)
                                (nodup Table.sval_eq_dec vs))).
    { apply filter_In. split.
      - apply nodup_In. apply (count_occ_In Table.sval_eq_dec). lia.
      - apply Nat.ltb_lt. exact Hv. }
    destruct (filter _ _); [destruct Hin|]. simpl. lia.
Qed.

(** A violation found by the check is routed by the rule's severity. *)
Lemma violation_body (con : Contracts.conn) (ds : string) (r : Contracts.quality_rule)
    (msg : string) :
  Contracts.finds_violation con ds r msg ->
  forall sev, Contracts.rule_body con ds (with_severity r sev) =
              ROk (Contracts.by_severity (with_severity r sev) msg).
Proof.
  intros Hv sev. unfold Contracts.rule_body.
  cbn [with_severity Contracts.r_type Contracts.r_name Contracts.r_column
       Contracts.r_query Contracts.r_expected Contracts.r_min_rows].
  destruct Hv as [c n Ht Hc Hn Hpos | c n Ht Hc Hn Hpos | n m Ht Hn Hm Hlt
                 | q text v e Ht Hq Hf Hs He Hne Heq];
    rewrite Ht; cbn [String.eqb Ascii.eqb Bool.eqb andb].
  - rewrite Hc. cbn [res_bind]. rewrite Hn. cbn [res_bind].
    apply Z.ltb_lt in Hpos. rewrite Hpos. reflexivity.
  - rewrite Hc. cbn [res_bind]. rewrite Hn. cbn [res_bind].
    apply Z.ltb_lt in Hpos. rewrite Hpos. reflexivity.
  - rewrite Hn. cbn [res_bind]. rewrite Hm.
    apply Z.ltb_lt in Hlt. rewrite Hlt. reflexivity.
  - rewrite Hq. cbn [res_bind]. rewrite Hf. cbn [res_bind]. rewrite Hs. cbn [res_bind].
    rewrite He. destruct e; [congruence| | |]; rewrite Heq; reflexivity.
Qed.

End ContractFacts.

(** C3: every result the schema, quality and SLA validators return has
    [passed] equal to "errors is empty" (the schema validator's early
    result for an undescribable dataset included). *)
Theorem C3_passed_iff_no_errors :
  (forall (con : Contracts.conn) (ds : string) (cols : list Contracts.column_def)
          (r : Contracts.vresult),
     Contracts.schema_validate con ds cols = ROk r ->
     Contracts.passed r = Contracts.is_empty (Contracts.errors r)) /\
  (forall (con : Contracts.conn) (ds : string) (rules : list Contracts.quality_rule),
     let r := Contracts.quality_validate con ds rules in
     Contracts.passed r = Contracts.is_empty (Contracts.errors r)) /\
  (forall (s : Contracts.sla) (path : string) (age : Contracts.file_age) (rc : Z),
     let r := Contracts.sla_validate s path age rc in
     Contracts.passed r = Contracts.is_empty (Contracts.errors r)).
Proof.
  split; [exact ContractFacts.schema_passed|].
  split; [exact ContractFacts.quality_passed|exact ContractFacts.sla_passed].
Qed.

Lemma C3_passed_iff_no_errors_witness :
  let con := Table.table_conn
               (Table.MkTable "orders" [("id", "INTEGER")] [[Contracts.VNull]])
               (fun _ => ROk (Contracts.VInt 0)) in
  Contracts.schema_validate con "orders"
      [Contracts.ColumnDef "id" "INTEGER" false []] =
    ROk (Contracts.VResult false
           ["Column id is nullable but contract requires NOT NULL"] []) /\
  Contracts.passed (Contracts.VResult false
           ["Column id is nullable but contract requires NOT NULL"] []) =
    Contracts.is_empty ["Column id is nullable but contract requires NOT NULL"].
Proof.
  intros con. split; [reflexivity|].
  destruct C3_passed_iff_no_errors as [Hs _].
  apply (Hs con "orders" [Contracts.ColumnDef "id" "INTEGER" false []]).
  reflexivity.
Defined.

(** C4: [passed] of the aggregate is the conjunction of the schema,
    quality and (when run) SLA verdicts, and [all_errors] /
    [all_warnings] concatenate schema, quality and SLA lists in that
    order; an SLA validation that was not run contributes nothing. *)
Theorem C4_aggregate_result (r : Contracts.contract_result) :
  let sla_passed := match Contracts.sla_result r with
                    | Some s => Contracts.passed s | None => true end in
  let sla_errors := match Contracts.sla_result r with
                    | Some s => Contracts.errors s | None => [] end in
  let sla_warnings := match Contracts.sla_result r with
                      | Some s => Contracts.warnings s | None => [] end in
  Contracts.cr_passed r =
    Contracts.passed (Contracts.schema_result r) &&
    Contracts.passed (Contracts.quality_result r) && sla_passed /\
  Contracts.all_errors r =
    (Contracts.errors (Contracts.schema_result r) ++
     Contracts.errors (Contracts.quality_result r) ++ sla_errors)%list /\
  Contracts.all_warnings r =
    (Contracts.warnings (Contracts.schema_result r) ++
     Contracts.warnings (Contracts.quality_result r) ++ sla_warnings)%list.
Proof.
  intros sp se sw. subst sp se sw.
  split; [|split; reflexivity].
  unfold Contracts.cr_passed.
  destruct (Contracts.passed (Contracts.schema_result r)); [|reflexivity].
  destruct (Contracts.passed (Contracts.quality_result r)); [|reflexivity].
  destruct (Contracts.sla_result r) as [s|]; [|reflexivity].
  destruct (Contracts.passed s); reflexivity.
Qed.

(** C5: a ["warning"] rule leaves the errors of the run unchanged and
    sends everything it produces to warnings; the same rule with severity
    ["error"] puts its errors in errors; whenever the rule's check finds a
    violation (uniqueness, not_null, volume or custom_sql), the warning
    rule yields the violation message as a warning, and the error rule
    yields it as an error and fails the run. *)
Theorem C5_warning_rules_never_error (con : Contracts.conn) (ds : string)
    (r : Contracts.quality_rule) (rs1 rs2 : list Contracts.quality_rule) :
  Contracts.r_severity r = "warning" ->
  let re := with_severity r "error" in
  let run l := Contracts.quality_validate con ds l in
  Contracts.errors (run (rs1 ++ r :: rs2)%list) = Contracts.errors (run (rs1 ++ rs2)%list) /\
  Contracts.warnings (run (rs1 ++ r :: rs2)%list) =
    (Contracts.warnings (run rs1) ++ fst (Contracts.validate_rule con ds r) ++
     snd (Contracts.validate_rule con ds r) ++ Contracts.warnings (run rs2))%list /\
  Contracts.errors (run (rs1 ++ re :: rs2)%list) =
    (Contracts.errors (run rs1) ++ fst (Contracts.validate_rule con ds re) ++
     Contracts.errors (run rs2))%list /\
  (forall msg, Contracts.finds_violation con ds r msg ->
     Contracts.validate_rule con ds r = ([], [msg]) /\
     Contracts.validate_rule con ds re = ([msg], []) /\
     In msg (Contracts.warnings (run (rs1 ++ r :: rs2)%list)) /\
     In msg (Contracts.errors (run (rs1 ++ re :: rs2)%list)) /\
     Contracts.passed (run (rs1 ++ re :: rs2)%list) = false).
Proof.
  intros Hw re run. subst run.
  assert (Hne : String.eqb (Contracts.r_severity r) "error" = false)
    by (rewrite Hw; reflexivity).
  pose proof (ContractFacts.quality_split con ds rs1 rs2 r) as Hr.
  pose proof (ContractFacts.quality_split con ds rs1 rs2 re) as Hre.
  pose proof (ContractFacts.quality_app con ds rs1 rs2) as [Ea Wa].
  simpl in Hr, Hre. rewrite Hne in Hr. subst re. unfold with_severity in Hre at 1.
  simpl in Hre.
  unfold Contracts.quality_validate in Ea, Wa |- *.
  split; [|split; [|split]].
  - rewrite Ea. simpl.
    rewrite (ContractFacts.collect_app con ds rs1 (r :: rs2)). simpl. rewrite Hne.
    reflexivity.
  - rewrite (ContractFacts.collect_app con ds rs1 (r :: rs2)). simpl. rewrite Hne.
    reflexivity.
  - rewrite (ContractFacts.collect_app con ds rs1 (with_severity r "error" :: rs2)).
    reflexivity.
  - intros msg Hv.
    pose proof (ContractFacts.violation_body con ds r msg Hv) as Hbody.
    assert (Er : with_severity r (Contracts.r_severity r) = r) by (destruct r; reflexivity).
    assert (Hvr : Contracts.validate_rule con ds r = ([], [msg])).
    { unfold Contracts.validate_rule. rewrite <- Er at 1. rewrite Hbody.
      unfold Contracts.by_severity. simpl. rewrite Hw. reflexivity. }
    assert (Hve : Contracts.validate_rule con ds (with_severity r "error") = ([msg], [])).
    { unfold Contracts.validate_rule. rewrite Hbody. reflexivity. }
    split; [exact Hvr|]. split; [exact Hve|].
    rewrite !(ContractFacts.collect_app con ds rs1). simpl.
    rewrite Hne, Hvr, Hve. simpl.
    split; [apply in_or_app; right; left; reflexivity|].
    split; [apply in_or_app; right; left; reflexivity|].
    destruct (fst (Contracts.collect_rules con ds rs1)); reflexivity.
Qed.

Lemma C5_warning_rules_never_error_witness :
  let con := Table.table_conn
               (Table.MkTable "orders" [("id", "INTEGER"); ("email", "VARCHAR")]
                  [[Contracts.VInt 1; Contracts.VNull]; [Contracts.VInt 1; Contracts.VStr "a@b.c"]])
               (fun _ => ROk (Contracts.VInt 0)) in
  let r := Contracts.QualityRule "uniq_id" "uniqueness" "warning" (Some "id") None
             Contracts.VNull None in
  let r' := Contracts.QualityRule "email_set" "not_null" "warning" (Some "email") None
              Contracts.VNull None in
  Contracts.r_severity r = "warning" /\
  Contracts.errors (Contracts.quality_validate con "orders" [r]) = [] /\
  In "Rule uniq_id: Found 1 duplicate values in column id"
     (Contracts.errors (Contracts.quality_validate con "orders" [with_severity r "error"])) /\
  Contracts.passed (Contracts.quality_validate con "orders" [with_severity r' "error"]) = false.
Proof.
  intros con r r'. split; [reflexivity|].
  destruct (C5_warning_rules_never_error con "orders" r [] [] eq_refl)
    as [E [_ [_ U]]].
  split; [exact E|].
  destruct (U _ (Contracts.fv_uniqueness con "orders" r "id" 1%Z eq_refl eq_refl eq_refl
                   ltac:(lia))) as [_ [_ [_ [Hin _]]]].
  split; [exact Hin|].
  destruct (C5_warning_rules_never_error con "orders" r' [] [] eq_refl)
    as [_ [_ [_ U']]].
  destruct (U' _ (Contracts.fv_not_null con "orders" r' "email" 1%Z eq_refl eq_refl eq_refl
                    ltac:(lia))) as [_ [_ [_ [_ Hp]]]].
  exact Hp.
Defined.

(** C6 (as stated): a rule whose execution raises is turned into an entry
    of [errors] whatever its severity.  A ["warning"] uniqueness rule on a
    missing column is turned into a warning and the run passes. *)
Lemma C6_fault_of_warning_rule_is_warning :
  let con := Table.table_conn
               (Table.MkTable "orders" [("id", "INTEGER")] [[Contracts.VInt 1]])
               (fun _ => ROk (Contracts.VInt 0)) in
  let r := Contracts.QualityRule "uniq_email" "uniqueness" "warning" (Some "email")
             None Contracts.VNull None in
  Contracts.quality_validate con "orders" [r] =
    Contracts.VResult true []
      ["Rule uniq_email: Error executing validation: Referenced column email not found"] /\
  ~ (forall (con : Contracts.conn) (ds : string) (r : Contracts.quality_rule) (e : exn),
       Contracts.rule_body con ds r = RExc e ->
       In ("Rule " ++ Contracts.r_name r ++ ": Error executing validation: " ++ exn_msg e)
          (Contracts.errors (Contracts.quality_validate con ds [r]))).
Proof.
  intros con r. split; [reflexivity|].
  intros H. specialize (H con "orders" r _ eq_refl). simpl in H. exact H.
Qed.

(** C6 (amended): an exception raised while a rule executes is caught and
    becomes the single entry ["Rule <name>: Error executing validation:
    <fault>"] of that rule, which goes to errors when the rule's severity
    is ["error"] and to warnings otherwise; the run completes and the
    rules before and after it contribute exactly what they contribute on
    their own. *)
Theorem C6_rule_fault_caught (con : Contracts.conn) (ds : string)
    (r : Contracts.quality_rule) (e : exn) (rs1 rs2 : list Contracts.quality_rule) :
  Contracts.rule_body con ds r = RExc e ->
  let m := "Rule " ++ Contracts.r_name r ++ ": Error executing validation: " ++ exn_msg e in
  let run l := Contracts.quality_validate con ds l in
  let is_err := String.eqb (Contracts.r_severity r) "error" in
  Contracts.validate_rule con ds r = ([m], []) /\
  Contracts.errors (run (rs1 ++ r :: rs2)%list) =
    (Contracts.errors (run rs1) ++ (if is_err then [m] else []) ++
     Contracts.errors (run rs2))%list /\
  Contracts.warnings (run (rs1 ++ r :: rs2)%list) =
    (Contracts.warnings (run rs1) ++ (if is_err then [] else [m]) ++
     Contracts.warnings (run rs2))%list.
Proof.
  intros Hb m run is_err.
  assert (Hv : Contracts.validate_rule con ds r = ([m], [])).
  { unfold Contracts.validate_rule. rewrite Hb. reflexivity. }
  split; [exact Hv|].
  subst run. unfold Contracts.quality_validate. cbn [Contracts.errors Contracts.warnings].
  rewrite (ContractFacts.collect_app con ds rs1 (r :: rs2)). simpl.
  rewrite Hv. subst is_err.
  destruct (String.eqb (Contracts.r_severity r) "error"); simpl; split; reflexivity.
Qed.

Lemma C6_rule_fault_caught_witness :
  let con := Table.table_conn
               (Table.MkTable "orders" [("id", "INTEGER")] [[Contracts.VInt 1]])
               (fun _ => ROk (Contracts.VInt 0)) in
  let r := Contracts.QualityRule "uniq_email" "uniqueness" "error" (Some "email")
             None Contracts.VNull None in
  Contracts.rule_body con "orders" r = RExc (Table.binder_error "email") /\
  Contracts.errors (Contracts.quality_validate con "orders" [r]) =
    ["Rule uniq_email: Error executing validation: Referenced column email not found"].
Proof.
  intros con r. split; [reflexivity|].
  destruct (C6_rule_fault_caught con "orders" r (Table.binder_error "email") [] []
              eq_refl) as [_ [E _]].
  exact E.
Defined.

(** C7 (as stated): the unique check ignores NULLs, so a column whose
    only repeated value is NULL gets no uniqueness error.  [GROUP BY]
    puts the two NULLs of [id] in one group of two rows, and the error is
    reported. *)
Lemma C7_null_duplicates_flagged :
  let vals := [Contracts.VNull; Contracts.VNull; Contracts.VInt 1] in
  let t := Table.MkTable "orders" [("id", "INTEGER")] (map (fun v => [v]) vals) in
  let con := Table.table_conn t (fun _ => ROk (Contracts.VInt 0)) in
  let col := Contracts.ColumnDef "id" "INTEGER" true
               [Contracts.Constraint None (Some true) None None None None] in
  (forall v, v <> Contracts.VNull -> (count_occ Table.sval_eq_dec vals v <= 1)%nat) /\
  Table.column_values t "orders" "id" = ROk vals /\
  Contracts.schema_validate con "orders" [col] =
    ROk (Contracts.VResult false
           ["Column id has duplicates but contract requires UNIQUE"] []).
Proof.
  intros vals t con col. split; [|split; reflexivity].
  intros v Hv. subst vals. cbn [count_occ].
  repeat (destruct Table.sval_eq_dec; try congruence); lia.
Qed.

(** C7 (amended): the unique check reports a duplicate exactly when some
    value, NULL included, occurs at least twice in the column: all NULLs
    form one group, so two or more NULLs produce the uniqueness error. *)
Theorem C7_unique_groups_nulls (t : Table.table) (custom : string -> res Contracts.sval)
    (ds name : string) (vs : list Contracts.sval) :
  Table.column_values t ds name = ROk vs ->
  let con := Table.table_conn t custom in
  let c := Contracts.Constraint None (Some true) None None None None in
  let msg := "Column " ++ name ++ " has duplicates but contract requires UNIQUE" in
  ((exists v, (1 < count_occ Table.sval_eq_dec vs v)%nat) ->
     Contracts.check_constraint con ds name c = ROk ([msg], [])) /\
  ((forall v, (count_occ Table.sval_eq_dec vs v <= 1)%nat) ->
     Contracts.check_constraint con ds name c = ROk ([], [])) /\
  ((2 <= count_occ Table.sval_eq_dec vs Contracts.VNull)%nat ->
     Contracts.check_constraint con ds name c = ROk ([msg], [])).
Proof.
  intros Hvs con c msg.
  assert (Hc : Contracts.check_constraint con ds name c =
               ROk (if (0 <? Table.dup_count vs)%Z then [msg] else [], [])).
  { subst con c msg. unfold Contracts.check_constraint, Contracts.if_count. simpl.
    rewrite Hvs. simpl. destruct (0 <? Table.dup_count vs)%Z; reflexivity. }
  rewrite Hc.
  split; [|split].
  - intros Hex. apply ContractFacts.dup_count_pos, Z.ltb_lt in Hex.
    rewrite Hex. reflexivity.
  - intros Hle. destruct (0 <? Table.dup_count vs)%Z eqn:E; [|reflexivity].
    apply Z.ltb_lt, ContractFacts.dup_count_pos in E as [v Hv].
    specialize (Hle v). lia.
  - intros H2.
    assert (Hex : exists v, (1 < count_occ Table.sval_eq_dec vs v)%nat)
      by (exists Contracts.VNull; lia).
    apply ContractFacts.dup_count_pos, Z.ltb_lt in Hex. rewrite Hex. reflexivity.
Qed.

Lemma C7_unique_groups_nulls_witness :
  let vals := [Contracts.VNull; Contracts.VNull; Contracts.VInt 1] in
  let t := Table.MkTable "orders" [("id", "INTEGER")] (map (fun v => [v]) vals) in
  Table.column_values t "orders" "id" = ROk vals /\
  Contracts.check_constraint (Table.table_conn t (fun _ => ROk (Contracts.VInt 0)))
    "orders" "id" (Contracts.Constraint None (Some true) None None None None) =
    ROk (["Column id has duplicates but contract requires UNIQUE"], []).
Proof.
  intros vals t. split; [reflexivity|].
  destruct (C7_unique_groups_nulls t (fun _ => ROk (Contracts.VInt 0)) "orders" "id"
              vals eq_refl) as [_ [_ H]].
  apply H. subst vals. simpl. lia.
Defined.

(** C9 (as stated): a failing run raises with a message holding the first
    errors.  The message holds only the dataset and the error count. *)
Lemma C9_summary_has_no_errors :
  let t := Table.MkTable "orders" [("order_id", "INTEGER")] [[Contracts.VInt 1]] in
  let con := Table.table_conn t (fun _ => ROk (Contracts.VInt 0)) in
  let cols := [Contracts.ColumnDef "id" "INTEGER" false []] in
  Contracts.validate_and_report "orders" cols [] (Contracts.SLA None None) con
      "orders" "data/orders.parquet" None false =
    RExc (Exn "RuntimeError" "Contract validation failed for orders: 1 errors") /\
  ~ (forall (dataset : string) (cols : list Contracts.column_def)
            (rules : list Contracts.quality_rule) (s : Contracts.sla)
            (con : Contracts.conn) (ds path : string) (age : Contracts.file_age)
            (vsla : bool) (r : Contracts.contract_result),
       Contracts.contract_validate dataset cols rules s con ds path age vsla = ROk r ->
       Contracts.cr_passed r = false ->
       exists e,
         Contracts.validate_and_report dataset cols rules s con ds path age vsla = RExc e /\
         forall m, hd_error (Contracts.all_errors r) = Some m ->
                   str_contains (exn_msg e) m = true).
Proof.
  intros t con cols. split; [reflexivity|].
  intros H.
  destruct (H "orders" cols [] (Contracts.SLA None None) con "orders"
              "data/orders.parquet" None false _ eq_refl eq_refl) as [e [He Hm]].
  injection He as <-.
  specialize (Hm _ eq_refl). vm_compute in Hm. discriminate Hm.
Qed.

(** C9 (amended): [validate_and_report] returns [True] when the aggregate
    verdict passes, and otherwise raises [RuntimeError("Contract
    validation failed for <dataset>: <n> errors")], [n] being the number
    of errors (the messages themselves are only logged); the verdict
    fails exactly when that list of errors is non-empty. *)
Theorem C9_validate_and_report (dataset : string) (cols : list Contracts.column_def)
    (rules : list Contracts.quality_rule) (s : Contracts.sla) (con : Contracts.conn)
    (ds path : string) (age : Contracts.file_age) (vsla : bool)
    (r : Contracts.contract_result) :
  Contracts.contract_validate dataset cols rules s con ds path age vsla = ROk r ->
  Contracts.validate_and_report dataset cols rules s con ds path age vsla =
    (if Contracts.cr_passed r then ROk true
     else RExc (Exn "RuntimeError"
                  ("Contract validation failed for " ++ dataset ++ ": " ++
                   Z_to_string (Z.of_nat (List.length (Contracts.all_errors r))) ++
                   " errors"))) /\
  Contracts.cr_passed r = Contracts.is_empty (Contracts.all_errors r).
Proof.
  intros H. split; [|exact (ContractFacts.contract_passed _ _ _ _ _ _ _ _ _ _ H)].
  assert (Hd : Contracts.cr_dataset r = dataset).
  { unfold Contracts.contract_validate in H.
    destruct (Contracts.count con (Contracts.QRowCount ds)); simpl in H; [|discriminate].
    destruct (Contracts.schema_validate con ds cols); simpl in H; [|discriminate].
    injection H as <-. reflexivity. }
  unfold Contracts.validate_and_report. rewrite H. simpl.
  unfold Contracts.report. rewrite Hd. reflexivity.
Qed.

Lemma C9_validate_and_report_witness :
  let t := Table.MkTable "orders" [("order_id", "INTEGER")] [[Contracts.VInt 1]] in
  let con := Table.table_conn t (fun _ => ROk (Contracts.VInt 0)) in
  let cols := [Contracts.ColumnDef "id" "INTEGER" false []] in
  let r := Contracts.ContractResult "orders"
             (Contracts.VResult false ["Missing required columns: {'id'}"]
                ["Extra columns found (not in contract): {'order_id'}"])
             (Contracts.VResult true [] []) None in
  Contracts.contract_validate "orders" cols [] (Contracts.SLA None None) con
      "orders" "data/orders.parquet" None false = ROk r /\
  Contracts.cr_passed r = Contracts.is_empty (Contracts.all_errors r).
Proof.
  intros t con cols r. split; [reflexivity|].
  apply (C9_validate_and_report "orders" cols [] (Contracts.SLA None None) con
           "orders" "data/orders.parquet" None false r).
  reflexivity.
Defined.

(** C10: a [pattern] without ['@'] adds nothing to the constraint's
    checks (no query, no message); a [pattern] with ['@'] adds one query,
    the count of non-NULL values not [LIKE '%@%.%'], after the other
    checks of the constraint, and only ever a warning. *)
Theorem C10_pattern_check (con : Contracts.conn) (ds name : string)
    (c : Contracts.constraint) (p : string) :
  Contracts.c_pattern c = Some p ->
  (str_contains p "@" = false ->
     Contracts.check_constraint con ds name c =
     Contracts.check_constraint con ds name (without_pattern c)) /\
  (str_contains p "@" = true ->
     Contracts.check_constraint con ds name c =
     (ew <- Contracts.check_constraint con ds name (without_pattern c) ;;
      n <- Contracts.count con (Contracts.QNotLikeEmail ds name) ;;
      ROk (fst ew,
           if (0 <? n)%Z
           then ["Column " ++ name ++ " has " ++ Z_to_string n ++
                 " values that may not match pattern " ++ p]
           else []))) /\
  (forall ew, Contracts.check_constraint con ds name (without_pattern c) = ROk ew ->
              snd ew = []).
Proof.
  intros Hp. destruct c as [nn un mn mx al pt]. simpl in Hp. subst pt.
  unfold Contracts.check_constraint, without_pattern. cbn [Contracts.c_pattern
    Contracts.c_not_null Contracts.c_unique Contracts.c_min_value
    Contracts.c_max_value Contracts.c_allowed_values].
  split; [|split].
  - intros H. rewrite H. reflexivity.
  - intros H. rewrite H. unfold Contracts.if_count.
    destruct (match nn with Some true => _ | _ => ROk [] end) as [e1|e]; simpl; [|reflexivity].
    destruct (match un with Some true => _ | _ => ROk [] end) as [e2|e]; simpl; [|reflexivity].
    destruct (match mn with Some v => _ | None => ROk [] end) as [e3|e]; simpl; [|reflexivity].
    destruct (match mx with Some v => _ | None => ROk [] end) as [e4|e]; simpl; [|reflexivity].
    destruct (match al with Some v => _ | None => ROk [] end) as [e5|e]; simpl; [|reflexivity].
    destruct (Contracts.count con (Contracts.QNotLikeEmail ds name)); reflexivity.
  - intros ew.
    destruct (match nn with Some true => _ | _ => ROk [] end) as [e1|e]; simpl; [|discriminate].
    destruct (match un with Some true => _ | _ => ROk [] end) as [e2|e]; simpl; [|discriminate].
    destruct (match mn with Some v => _ | None => ROk [] end) as [e3|e]; simpl; [|discriminate].
    destruct (match mx with Some v => _ | None => ROk [] end) as [e4|e]; simpl; [|discriminate].
    destruct (match al with Some v => _ | None => ROk [] end) as [e5|e]; simpl; [|discriminate].
    intros H. injection H as <-. reflexivity.
Qed.

Lemma C10_pattern_check_witness :
  let t := Table.MkTable "users" [("email", "VARCHAR")]
             [[Contracts.VStr "a@b.c"]; [Contracts.VStr "nobody"]; [Contracts.VNull]] in
  let con := Table.table_conn t (fun _ => ROk (Contracts.VInt 0)) in
  let c := Contracts.Constraint None None None None None (Some "^[^@]+@[^@]+$") in
  Contracts.c_pattern c = Some "^[^@]+@[^@]+$" /\
  str_contains "^[^@]+@[^@]+$" "@" = true /\
  Contracts.check_constraint con "users" "email" c =
    ROk ([], ["Column email has 1 values that may not match pattern ^[^@]+@[^@]+$"]).
Proof.
  intros t con c. split; [reflexivity|]. split; [reflexivity|].
  destruct (C10_pattern_check con "users" "email" c "^[^@]+@[^@]+$" eq_refl)
    as [_ [H _]].
  rewrite (H eq_refl). reflexivity.
Defined.

Module PathFacts.
Import PosixPath.

Lemma str_app_nil_r (s : string) : s ++ "" = s.
Proof. induction s as [|c s IH]; simpl; [reflexivity|]. rewrite IH. reflexivity. Qed.

Lemma str_app_assoc (a b c : string) : (a ++ b) ++ c = a ++ (b ++ c).
Proof. induction a as [|x a IH]; simpl; [reflexivity|]. rewrite IH. reflexivity. Qed.

Fixpoint has_slash (s : string) : bool :=
  match s with
  | EmptyString => false
  | String c s' => Ascii.eqb c "/"%char || has_slash s'
  end.

Lemma has_slash_app (a b : string) : has_slash (a ++ b) = has_slash a || has_slash b.
Proof. induction a as [|c a IH]; simpl; [reflexivity|]. rewrite IH, orb_assoc. reflexivity. Qed.

Lemma split_aux_noslash (acc x s : string) :
  has_slash x = false -> split_slash_aux acc (x ++ s) = split_slash_aux (acc ++ x) s.
Proof.
  revert acc. induction x as [|c x IH]; intros acc Hx; simpl.
  - rewrite str_app_nil_r. reflexivity.
  - simpl in Hx. apply orb_false_iff in Hx as [Hc Hx]. rewrite Hc.
    rewrite IH by exact Hx. rewrite str_app_assoc. reflexivity.
Qed.

Lemma split_noslash (acc s : string) :
  has_slash acc = false ->
  Forall (fun x => has_slash x = false) (split_slash_aux acc s).
Proof.
  revert acc. induction s as [|c s IH]; intros acc Hacc; simpl.
  - constructor; [exact Hacc|constructor].
  - destruct (Ascii.eqb c "/"%char) eqn:Hc.
    + constructor; [exact Hacc|apply IH; reflexivity].
    + apply IH. rewrite has_slash_app, Hacc. simpl. rewrite Hc. reflexivity.
Qed.

Definition good (x : string) : Prop := x <> "" /\ x <> "." /\ has_slash x = false.

Definition keep (x : string) : bool := negb (String.eqb x "") && negb (String.eqb x ".").

Lemma split_join (parts : list string) :
  parts <> [] -> Forall (fun x => has_slash x = false) parts ->
  split_slash (join_slash parts) = parts.
Proof.
  unfold split_slash. induction parts as [|x xs IH]; intros Hne Hf; [congruence|].
  inversion Hf as [|? ? Hx Hxs]; subst.
  destruct xs as [|y ys].
  - simpl. rewrite <- (str_app_nil_r x) at 1. rewrite split_aux_noslash by exact Hx.
    reflexivity.
  - change (join_slash (x :: y :: ys)) with (x ++ "/" ++ join_slash (y :: ys)).
    rewrite split_aux_noslash by exact Hx. simpl.
    f_equal. apply IH; [congruence|exact Hxs].
Qed.

Lemma parts_good (rel : string) :
  Forall good (filter keep (split_slash rel)).
Proof.
  apply Forall_forall. intros x Hx. apply filter_In in Hx as [Hin Hk].
  pose proof (split_noslash "" rel eq_refl) as Hf.
  rewrite Forall_forall in Hf. specialize (Hf x Hin).
  unfold keep in Hk. apply andb_true_iff in Hk as [H1 H2].
  apply negb_true_iff, String.eqb_neq in H1, H2.
  repeat split; assumption.
Qed.

Lemma filter_keep_id (parts : list string) :
  Forall good parts -> filter keep parts = parts.
Proof.
  induction parts as [|x xs IH]; intros Hf; [reflexivity|].
  inversion Hf as [|? ? [H1 [H2 _]] Hxs]; subst. simpl.
  unfold keep. apply String.eqb_neq in H1, H2. rewrite H1, H2. simpl.
  f_equal. apply IH. exact Hxs.
Qed.

Lemma join_head (parts : list string) :
  parts <> [] -> Forall good parts ->
  exists c J, join_slash parts = String c J /\ c <> "/"%char.
Proof.
  intros Hne Hf. destruct parts as [|x xs]; [congruence|].
  inversion Hf as [|? ? [H1 [_ H3]] _]; subst.
  destruct x as [|c r]; [congruence|].
  simpl in H3. apply orb_false_iff in H3 as [Hc _].
  assert (Hc' : c <> "/"%char) by (intros ->; discriminate Hc).
  destruct xs as [|y ys].
  - exists c, r. split; [reflexivity|exact Hc'].
  - exists c, (r ++ "/" ++ join_slash (y :: ys)). split; [reflexivity|exact Hc'].
Qed.

Lemma splitroot_none (c : ascii) (r : string) :
  c <> "/"%char -> splitroot (String c r) = ("", String c r).
Proof.
  intros Hc. destruct c as [[] [] [] [] [] [] [] []]; try reflexivity.
  exfalso; apply Hc; reflexivity.
Qed.

Lemma splitroot_one (c : ascii) (r : string) :
  c <> "/"%char -> splitroot (String "/" (String c r)) = ("/", String c r).
Proof.
  intros Hc. destruct c as [[] [] [] [] [] [] [] []]; try reflexivity.
  exfalso; apply Hc; reflexivity.
Qed.

Lemma splitroot_two (c : ascii) (r : string) :
  c <> "/"%char -> splitroot (String "/" (String "/" (String c r))) = ("//", String c r).
Proof.
  intros Hc. destruct c as [[] [] [] [] [] [] [] []]; try reflexivity.
  exfalso; apply Hc; reflexivity.
Qed.

Definition is_root (root : string) : Prop := root = "" \/ root = "/" \/ root = "//".

Lemma splitroot_root (p : string) : is_root (fst (splitroot p)).
Proof.
  unfold is_root.
  destruct p as [|a p]; [left; reflexivity|].
  destruct (ascii_dec a "/"%char) as [->|Ha]; [|rewrite splitroot_none by exact Ha; left; reflexivity].
  destruct p as [|b p]; [right; left; reflexivity|].
  destruct (ascii_dec b "/"%char) as [->|Hb]; [|rewrite splitroot_one by exact Hb; right; left; reflexivity].
  destruct p as [|c p]; [right; right; reflexivity|].
  destruct (ascii_dec c "/"%char) as [->|Hc]; [right; left; reflexivity|].
  rewrite splitroot_two by exact Hc. right; right; reflexivity.
Qed.

Lemma path_str_normal (root : string) (parts : list string) :
  is_root root -> parts <> [] -> Forall good parts ->
  path_str (root ++ join_slash parts) = root ++ join_slash parts.
Proof.
  intros Hr Hne Hf.
  destruct (join_head parts Hne Hf) as [c [J [Hj Hc]]].
  assert (Hsr : splitroot (root ++ join_slash parts) = (root, join_slash parts)).
  { rewrite Hj. destruct Hr as [-> | [-> | ->]]; simpl.
    - apply splitroot_none. exact Hc.
    - apply splitroot_one. exact Hc.
    - apply splitroot_two. exact Hc. }
  unfold path_str. rewrite Hsr. cbv iota beta.
  rewrite split_join; [|exact Hne|].
  - rewrite filter_keep_id by exact Hf.
    rewrite Hj. destruct Hr as [-> | [-> | ->]]; reflexivity.
  - eapply Forall_impl; [|exact Hf]. intros x [_ [_ H]]. exact H.
Qed.

Lemma path_str_idem (p : string) : path_str (path_str p) = path_str p.
Proof.
  pose proof (splitroot_root p) as Hr.
  unfold path_str at 2 3. destruct (splitroot p) as [root rel] eqn:Hsr.
  simpl in Hr. cbv iota beta.
  pose proof (parts_good rel) as Hf.
  set (parts := filter keep (split_slash rel)) in *.
  change (filter (fun x : string => negb (x =? "") && negb (x =? ".")) (split_slash rel))
    with parts.
  destruct parts as [|x xs] eqn:Hp.
  - simpl. rewrite str_app_nil_r.
    destruct Hr as [-> | [-> | ->]]; reflexivity.
  - assert (Hne : x :: xs <> []) by discriminate.
    destruct (join_head _ Hne Hf) as [c [J [Hj _]]].
    assert (Hn : (root ++ join_slash (x :: xs) =? "") = false).
    { rewrite Hj. destruct Hr as [-> | [-> | ->]]; reflexivity. }
    rewrite Hn. apply path_str_normal; assumption.
Qed.

End PathFacts.

Module ExecutorFacts.
Import Executor.
Local Open Scope list_scope.

Lemma assoc_set_absent {V} (k : string) (v : V) (d : list (string * V)) :
  ~ In k (map fst d) -> assoc_set k v d = d ++ [(k, v)].
Proof.
  induction d as [|[k' v'] d IH]; simpl; intros Hk; [reflexivity|].
  destruct (String.eqb_spec k k') as [->|_]; [exfalso; auto|].
  rewrite IH; auto.
Qed.

(** All tasks succeed: every stage is called once, in order, and the
    results are appended in stage order. *)
Lemma run_loop_ok (tm : list (string * task)) (out : string -> string)
    (stages : list string) (results : list (string * string)) :
  NoDup stages ->
  (forall s, In s stages -> ~ In s (map fst results)) ->
  (forall s, In s stages -> assoc_get s tm = Some (ROk (out s))) ->
  run_loop tm stages results = (stages, ROk (results ++ map (fun s => (s, out s)) stages)).
Proof.
  revert results. induction stages as [|s ss IH]; intros results Hnd Hfresh Hok; simpl.
  - rewrite app_nil_r. reflexivity.
  - rewrite (Hok s (or_introl eq_refl)).
    inversion Hnd as [|? ? Hs Hnd']; subst.
    rewrite assoc_set_absent by (apply Hfresh; left; reflexivity).
    rewrite IH; [rewrite <- app_assoc; reflexivity|exact Hnd'| |].
    + intros x Hx. rewrite map_app, in_app_iff. simpl. intros [H|[H|[]]].
      * exact (Hfresh x (or_intror Hx) H).
      * subst. exact (Hs Hx).
    + intros x Hx. apply Hok. right. exact Hx.
Qed.

(** The loop stops at the first stage without a task or whose task
    raises; the later stages are never called. *)
Lemma run_loop_stop (tm : list (string * task)) (pre : list string) (name : string)
    (post : list string) (results : list (string * string)) :
  (forall s, In s pre -> exists r, assoc_get s tm = Some (ROk r)) ->
  (assoc_get name tm = None ->
   run_loop tm (pre ++ name :: post) results =
     (pre, RExc (Exn "KeyError" ("No task registered for stage '" ++ name ++ "'")))) /\
  (forall e, assoc_get name tm = Some (RExc e) ->
   run_loop tm (pre ++ name :: post) results = (pre ++ [name], RExc e)).
Proof.
  revert results. induction pre as [|s pre IH]; intros results Hpre; simpl.
  - split.
    + intros Hn. rewrite Hn. reflexivity.
    + intros e He. rewrite He. reflexivity.
  - destruct (Hpre s (or_introl eq_refl)) as [r Hr]. rewrite Hr.
    destruct (IH (assoc_set s r results)) as [IH1 IH2].
    { intros x Hx. apply Hpre. right. exact Hx. }
    split.
    + intros Hn. rewrite (IH1 Hn). reflexivity.
    + intros e He. rewrite (IH2 e He). reflexivity.
Qed.

End ExecutorFacts.

Module DriverRunFacts.
Import DriverRun.
Local Open Scope list_scope.

Lemma execution_order_cases (selected : option string) (stages : list string) :
  Driver.execution_order selected = ROk stages ->
  stages = ["bronze"; "silver"; "gold"] \/ stages = ["silver"; "gold"] \/ stages = ["gold"].
Proof.
  unfold Driver.execution_order. destruct selected as [sel|]; [|intros H; injection H as <-; auto].
  destruct (String.eqb sel "" || String.eqb sel "all"); [intros H; injection H as <-; auto|].
  unfold str_in, str_index, Driver.order. simpl.
  destruct (String.eqb (lower sel) "bronze"); [simpl; intros H; injection H as <-; auto|].
  destruct (String.eqb (lower sel) "silver"); [simpl; intros H; injection H as <-; auto|].
  destruct (String.eqb (lower sel) "gold"); [simpl; intros H; injection H as <-; auto|].
  simpl. discriminate.
Qed.

Lemma execution_order_nodup (selected : option string) (stages : list string) :
  Driver.execution_order selected = ROk stages -> NoDup stages.
Proof.
  intros H. destruct (execution_order_cases _ _ H) as [-> | [-> | ->]];
    repeat constructor; simpl; intuition discriminate.
Qed.

(** The dict comprehension of [Driver.run] finds a task for every stage
    of an execution order: the task [run_stage] dispatches to. *)
Lemma active_tasks_order (sr : stage_runs) (selected : option string) (stages : list string) :
  Driver.execution_order selected = ROk stages ->
  exists act, active_tasks (task_map sr) stages [] = ROk act /\
    (forall s, In s stages -> Executor.assoc_get s act = Some (run_stage sr s)).
Proof.
  intros H. destruct (execution_order_cases _ _ H) as [-> | [-> | ->]];
    eexists; (split; [reflexivity|]); simpl;
    intros s Hs; repeat destruct Hs as [<-|Hs]; try reflexivity; destruct Hs.
Qed.

End DriverRunFacts.

(** X1: when every stage of a duplicate-free list has a task that succeeds,
    [PipelineExecutor.run] calls each one once, in order, and returns the
    results in stage order. *)
Theorem X1_executor_runs_all (stages : list string) (tm : list (string * Executor.task))
    (out : string -> string) :
  NoDup stages ->
  (forall s, In s stages -> Executor.assoc_get s tm = Some (ROk (out s))) ->
  Executor.run stages tm = (stages, ROk (map (fun s => (s, out s)) stages)).
Proof.
  intros Hnd Hok. unfold Executor.run.
  rewrite (ExecutorFacts.run_loop_ok tm out stages [] Hnd); [reflexivity| |exact Hok].
  intros s _ [].
Qed.

(** X2: [PipelineExecutor.run] stops at the first stage without a task
    (KeyError, the failing stage not called) or whose task raises (the error
    propagates after the stage was called); no later stage runs. *)
Theorem X2_executor_stops_at_failure (tm : list (string * Executor.task))
    (pre : list string) (name : string) (post : list string) :
  (forall s, In s pre -> exists r, Executor.assoc_get s tm = Some (ROk r)) ->
  (Executor.assoc_get name tm = None ->
   Executor.run (pre ++ name :: post)%list tm =
     (pre, RExc (Exn "KeyError" ("No task registered for stage '" ++ name ++ "'")))) /\
  (forall e, Executor.assoc_get name tm = Some (RExc e) ->
   Executor.run (pre ++ name :: post)%list tm = ((pre ++ [name])%list, RExc e)).
Proof. intros Hpre. exact (ExecutorFacts.run_loop_stop tm pre name post [] Hpre). Qed.

(** X3: [Driver.run] runs exactly the stages of [execution_order], in order,
    each through [run_stage]; it returns their serialized outputs, or stops at
    the first stage that raises. *)
Theorem X3_driver_run (sr : DriverRun.stage_runs) (selected : option string)
    (stages : list string) :
  Driver.execution_order selected = ROk stages ->
  (forall out : string -> string,
     (forall s, In s stages -> DriverRun.run_stage sr s = ROk (out s)) ->
     DriverRun.run sr selected = (stages, ROk (map (fun s => (s, out s)) stages))) /\
  (forall pre name post e,
     stages = (pre ++ name :: post)%list ->
     (forall s, In s pre -> exists r, DriverRun.run_stage sr s = ROk r) ->
     DriverRun.run_stage sr name = RExc e ->
     DriverRun.run sr selected = ((pre ++ [name])%list, RExc e)).
Proof.
  intros Hord. unfold DriverRun.run. rewrite Hord.
  destruct (DriverRunFacts.active_tasks_order sr _ _ Hord) as [act [Ha Hget]].
  rewrite Ha. unfold Executor.run. split.
  - intros out Hout.
    rewrite (ExecutorFacts.run_loop_ok act out stages []); [reflexivity| | |].
    + exact (DriverRunFacts.execution_order_nodup _ _ Hord).
    + intros s _ [].
    + intros s Hs. rewrite Hget by exact Hs. rewrite Hout by exact Hs. reflexivity.
  - intros pre name post e -> Hpre Hname.
    apply (ExecutorFacts.run_loop_stop act pre name post []).
    + intros s Hs. destruct (Hpre s Hs) as [r Hr]. exists r.
      rewrite Hget by (apply in_or_app; left; exact Hs). rewrite Hr. reflexivity.
    + rewrite Hget by (apply in_or_app; right; left; reflexivity). rewrite Hname. reflexivity.
Qed.

(** X4: [Driver.run_stage] raises ValueError for a stage name outside bronze,
    silver, gold, and dispatches every stage of [execution_order] to its own
    stage's run, serializing the outputs. *)
Theorem X4_run_stage_dispatch (sr : DriverRun.stage_runs) :
  (forall stage, str_in stage Driver.order = false ->
     DriverRun.run_stage sr stage =
       RExc (Exn "ValueError" ("No task registered for stage '" ++ stage ++ "'"))) /\
  (forall selected stages s,
     Driver.execution_order selected = ROk stages -> In s stages ->
     (s = "bronze" /\ DriverRun.run_stage sr s =
        (outs <- DriverRun.bronze_run sr ;; ROk (DriverRun.serialize outs))) \/
     (s = "silver" /\ DriverRun.run_stage sr s =
        (outs <- DriverRun.silver_run sr ;; ROk (DriverRun.serialize outs))) \/
     (s = "gold" /\ DriverRun.run_stage sr s =
        (outs <- DriverRun.gold_run sr ;; ROk (DriverRun.serialize outs)))).
Proof.
  split.
  - intros stage Hs. unfold str_in, Driver.order in Hs. simpl in Hs.
    unfold DriverRun.run_stage, DriverRun.task_map. simpl.
    destruct (String.eqb stage "bronze"); [discriminate Hs|].
    destruct (String.eqb stage "silver"); [discriminate Hs|].
    destruct (String.eqb stage "gold"); [discriminate Hs|]. reflexivity.
  - intros selected stages s Hord Hin.
    destruct (DriverRunFacts.execution_order_cases _ _ Hord) as [-> | [-> | ->]];
      simpl in Hin; repeat destruct Hin as [<-|Hin]; try destruct Hin;
      [left|right; left|right; right|right; left|right; right|right; right];
      split; reflexivity.
Qed.

Module QueueFacts.
Import Checkpoint Queue.
Local Open Scope list_scope.

Lemma as_str_list_map (l : list string) : as_str_list (map PStr l) = Some l.
Proof. induction l as [|x l IH]; simpl; [reflexivity|]. rewrite IH. reflexivity. Qed.

Lemma normal_str_list (l : list string) : forallb json_normal (map PStr l) = true.
Proof. induction l as [|x l IH]; simpl; [reflexivity|]. exact IH. Qed.

Lemma payload_normal (m : Worker.cont_msg) : json_normal (payload_dict m) = true.
Proof. simpl. rewrite normal_str_list. reflexivity. Qed.

Lemma deliver_msg (m : Worker.cont_msg) :
  deliver m = Some (Worker.Payload (Some (Worker.cm_config_path m)) (Some (Worker.cm_stage m))
                                   (Some (Worker.cm_remaining m))).
Proof.
  unfold deliver, transmit. rewrite CheckpointFacts.roundtrip_normal by apply payload_normal.
  unfold as_payload, opt_field, payload_dict. simpl.
  rewrite as_str_list_map. reflexivity.
Qed.

End QueueFacts.

Module ChainFacts.
Import Worker Chain.
Local Open Scope list_scope.

Lemma stages_run_app (a b : list event) : stages_run (a ++ b) = stages_run a ++ stages_run b.
Proof. unfold stages_run. apply flat_map_app. Qed.

Lemma follow_prefix (H : host) (n : nat) (cp st : string) (rem : list string) :
  exists k, stages_run (fst (follow H n (Payload (Some cp) (Some st) (Some rem)))) =
            firstn k (st :: rem).
Proof.
  revert cp st rem. induction n as [|n IH]; intros cp st rem; [exists 0; reflexivity|].
  cbn [follow]. unfold main. cbn [p_config_path p_stage p_remaining].
  destruct (h_create_driver H (PosixPath.path_str cp)) as [d|e];
    [|exists 0; reflexivity].
  destruct (h_run_stage H d st) as [out|e]; [|exists 1; reflexivity].
  destruct rem as [|r0 rs]; [exists 1; reflexivity|].
  unfold enqueue_next. destruct (h_open_queue H d) as [q|e]; [|exists 1; reflexivity].
  destruct (h_enqueue H q (ContMsg (PosixPath.path_str cp) r0 rs)) as [u|e];
    [|exists 1; reflexivity].
  simpl. rewrite QueueFacts.deliver_msg. simpl.
  destruct (IH (PosixPath.path_str cp) r0 rs) as [k Hk].
  destruct (follow H n _) as [evs' r'] eqn:E. simpl in Hk |- *.
  exists (S k). rewrite Hk. reflexivity.
Qed.

Section AllSucceed.
Variable H : host.
Hypothesis Hc : forall c, exists d, h_create_driver H c = ROk d.
Hypothesis Hr : forall d s, exists out, h_run_stage H d s = ROk out.
Hypothesis Ho : forall d, exists q, h_open_queue H d = ROk q.
Hypothesis He : forall q m, h_enqueue H q m = ROk tt.

Lemma follow_ok (n : nat) (cp st : string) (rem : list string) :
  PosixPath.path_str cp = cp -> List.length rem < n ->
  let run := follow H n (Payload (Some cp) (Some st) (Some rem)) in
  stages_run (fst run) = st :: rem /\ snd run = ROk tt /\
  (forall p, In (ECreateDriver p) (fst run) -> p = cp).
Proof.
  revert cp st rem. induction n as [|n IH]; intros cp st rem Hcp Hlen; [lia|].
  cbn [follow]. unfold main. cbn [p_config_path p_stage p_remaining].
  rewrite Hcp. destruct (Hc cp) as [d Hd]. rewrite Hd.
  destruct (Hr d st) as [out Hout]. rewrite Hout.
  destruct rem as [|r0 rs].
  - simpl. split; [reflexivity|]. split; [reflexivity|].
    intros p [E|[E|[]]]; [injection E as ->; reflexivity|discriminate E].
  - unfold enqueue_next. destruct (Ho d) as [q Hq]. rewrite Hq, He.
    simpl. rewrite QueueFacts.deliver_msg. simpl.
    simpl in Hlen. destruct (IH cp r0 rs Hcp ltac:(lia)) as [Hs [Hok Hcr]].
    destruct (follow H n _) as [evs' r'] eqn:E. simpl in Hs, Hok, Hcr |- *.
    split; [rewrite Hs; reflexivity|]. split; [exact Hok|].
    intros p [Ep|[Ep|[Ep|Hin]]]; try discriminate Ep.
    + injection Ep as ->. reflexivity.
    + exact (Hcr p Hin).
Qed.

End AllSucceed.
End ChainFacts.

(** X5: the timer trigger propagates an [execution_order] error, and otherwise
    enqueues exactly one message carrying the first stage and the rest; a
    successful run always enqueued a message. *)
Theorem X5_trigger_enqueues_first_stage (H : Worker.host) (env_start_stage : option string)
    (d : Worker.h_driver H) :
  let config_path := PosixPath.path_str (match Worker.h_env_config H with
                                         | Some e => e
                                         | None => "configs/default.yml"
                                         end) in
  let selected := match env_start_stage with Some s => s | None => "all" end in
  Worker.h_create_driver H config_path = ROk d ->
  (forall e, Driver.execution_order (Some selected) = RExc e ->
     Trigger.main H env_start_stage = ([Worker.ECreateDriver config_path], RExc e)) /\
  (forall stages, Driver.execution_order (Some selected) = ROk stages ->
     exists first rest, stages = first :: rest /\
       (forall q, Worker.h_open_queue H d = ROk q ->
          Worker.h_enqueue H q (Worker.ContMsg config_path first rest) = ROk tt ->
          Trigger.main H env_start_stage =
            ([Worker.ECreateDriver config_path;
              Worker.EEnqueue (Worker.ContMsg config_path first rest)], ROk tt))) /\
  (snd (Trigger.main H env_start_stage) = ROk tt ->
     exists m, In (Worker.EEnqueue m) (fst (Trigger.main H env_start_stage))).
Proof.
  intros config_path selected Hd. unfold Trigger.main. fold config_path selected.
  rewrite Hd. split; [|split].
  - intros e He. rewrite He. reflexivity.
  - intros stages Hs. rewrite Hs.
    destruct (DriverRunFacts.execution_order_cases _ _ Hs) as [-> | [-> | ->]];
      eexists; eexists; (split; [reflexivity|]);
      intros q Hq Henq; rewrite Hq, Henq; reflexivity.
  - destruct (Driver.execution_order (Some selected)) as [stages|e] eqn:Hs;
      [|discriminate].
    destruct (DriverRunFacts.execution_order_cases _ _ Hs) as [-> | [-> | ->]];
      (destruct (Worker.h_open_queue H d) as [q|e]; [|discriminate]);
      (destruct (Worker.h_enqueue H q _) as [u|e]; [|discriminate]);
      intros _; eexists; right; left; reflexivity.
Qed.

(** X6: a worker payload without stage raises KeyError 'stage' before doing
    anything; without remaining no message is enqueued; without config_path
    the driver is built from the environment's or the default path. *)
Theorem X6_worker_payload_defaults (H : Worker.host) :
  (forall c rem, Worker.main H (Worker.Payload c None rem) =
                 ([], RExc (Exn "KeyError" "'stage'"))) /\
  (forall c s m, ~ In (Worker.EEnqueue m) (fst (Worker.main H (Worker.Payload c (Some s) None)))) /\
  (forall s rem p,
     In (Worker.ECreateDriver p) (fst (Worker.main H (Worker.Payload None (Some s) rem))) ->
     p = PosixPath.path_str (match Worker.h_env_config H with
                             | Some e => e
                             | None => "configs/default.yml"
                             end)).
Proof.
  split; [|split].
  - intros c rem. reflexivity.
  - intros c s m. unfold Worker.main. cbn [Worker.p_config_path Worker.p_stage Worker.p_remaining].
    destruct (Worker.h_create_driver H _) as [d|e]; [|intros [E|[]]; discriminate E].
    destruct (Worker.h_run_stage H d s) as [out|e]; simpl; intuition discriminate.
  - intros s rem p. unfold Worker.main. cbn [Worker.p_config_path Worker.p_stage Worker.p_remaining].
    destruct (Worker.h_create_driver H _) as [d|e];
      [|intros [E|[]]; injection E as ->; reflexivity].
    destruct (Worker.h_run_stage H d s) as [out|e];
      [|intros [E|[E|[]]]; [injection E as ->; reflexivity|discriminate E]].
    destruct (match rem with Some r => r | None => [] end) as [|r0 rs];
      [intros [E|[E|[]]]; [injection E as ->; reflexivity|discriminate E]|].
    unfold Worker.enqueue_next. destruct (Worker.h_open_queue H d) as [q|e];
      [|intros [E|[E|[]]]; [injection E as ->; reflexivity|discriminate E]].
    destruct (Worker.h_enqueue H q _) as [u|e]; simpl; intros Hin;
      repeat (destruct Hin as [E|Hin]; [try (injection E as ->; reflexivity); discriminate E|]);
      destruct Hin.
Qed.

(** X7: a continuation message survives the JSON queue round trip: the worker
    reads back the config path, stage and remaining stages that were enqueued. *)
Theorem X7_queue_message_roundtrip (m : Worker.cont_msg) :
  Queue.deliver m =
    Some (Worker.Payload (Some (Worker.cm_config_path m)) (Some (Worker.cm_stage m))
                         (Some (Worker.cm_remaining m))).
Proof. exact (QueueFacts.deliver_msg m). Qed.

(** X8: when every collaborator succeeds and enough invocations are allowed,
    the trigger followed by the chain of worker invocations runs exactly the
    selected stages, in order, and every driver is built from the same config
    path. *)
Theorem X8_scheduled_run_completes (H : Worker.host) :
  (forall c, exists d, Worker.h_create_driver H c = ROk d) ->
  (forall d s, exists out, Worker.h_run_stage H d s = ROk out) ->
  (forall d, exists q, Worker.h_open_queue H d = ROk q) ->
  (forall q m, Worker.h_enqueue H q m = ROk tt) ->
  forall (env_start_stage : option string) (stages : list string) (fuel : nat),
  Driver.execution_order
    (Some (match env_start_stage with Some s => s | None => "all" end)) = ROk stages ->
  List.length stages <= fuel ->
  let run := Chain.scheduled H env_start_stage fuel in
  Chain.stages_run (fst run) = stages /\ snd run = ROk tt /\
  (forall p, In (Worker.ECreateDriver p) (fst run) ->
     p = PosixPath.path_str (match Worker.h_env_config H with
                             | Some e => e
                             | None => "configs/default.yml"
                             end)).
Proof.
  intros Hc Hr Ho He env_start_stage stages fuel Hs Hlen run. subst run.
  set (cp := PosixPath.path_str (match Worker.h_env_config H with
                                 | Some e => e
                                 | None => "configs/default.yml"
                                 end)).
  unfold Chain.scheduled, Trigger.main. fold cp.
  destruct (Hc cp) as [d Hd]. rewrite Hd, Hs.
  assert (Hne : exists first rest, stages = first :: rest)
    by (destruct (DriverRunFacts.execution_order_cases _ _ Hs) as [-> | [-> | ->]]; eauto).
  destruct Hne as [first [rest ->]].
  destruct (Ho d) as [q Hq]. rewrite Hq, He. cbn [Chain.enqueued].
  rewrite QueueFacts.deliver_msg.
  cbn [Worker.cm_config_path Worker.cm_stage Worker.cm_remaining].
  simpl in Hlen.
  destruct (ChainFacts.follow_ok H Hc Hr Ho He fuel cp first rest
              (PathFacts.path_str_idem _) ltac:(lia)) as [Hst [Hok Hcr]].
  destruct (Chain.follow H fuel _) as [evs' r'].
  simpl in Hst, Hok, Hcr |- *.
  split; [exact Hst|]. split; [exact Hok|].
  intros p [Ep|[Ep|Hin]]; [injection Ep as <-; reflexivity|discriminate Ep|exact (Hcr p Hin)].
Qed.

Lemma X8_scheduled_run_completes_witness :
  Chain.stages_run (fst (Chain.scheduled Worker.ok_host None 3)) = ["bronze"; "silver"; "gold"] /\
  snd (Chain.scheduled Worker.ok_host None 3) = ROk tt.
Proof.
  destruct (X8_scheduled_run_completes Worker.ok_host
              (fun _ => ex_intro _ tt eq_refl) (fun _ _ => ex_intro _ "done" eq_refl)
              (fun _ => ex_intro _ tt eq_refl) (fun _ _ => eq_refl)
              None ["bronze"; "silver"; "gold"] 3 eq_refl ltac:(simpl; lia))
    as [H1 [H2 _]].
  split; [exact H1|exact H2].
Defined.

(** X9: whatever the collaborators do, the stages run by the trigger and the
    chain of workers are a prefix of [execution_order]'s stages, and none when
    [execution_order] fails. *)
Theorem X9_scheduled_run_in_order (H : Worker.host) (env_start_stage : option string)
    (fuel : nat) :
  let selected := match env_start_stage with Some s => s | None => "all" end in
  let run := Chain.scheduled H env_start_stage fuel in
  (forall e, Driver.execution_order (Some selected) = RExc e -> Chain.stages_run (fst run) = []) /\
  (forall stages, Driver.execution_order (Some selected) = ROk stages ->
     exists k, Chain.stages_run (fst run) = firstn k stages).
Proof.
  intros selected run. subst run. unfold Chain.scheduled, Trigger.main. fold selected.
  destruct (Worker.h_create_driver H _) as [d|e].
  2:{ split; [reflexivity|]. intros stages _. exists 0. reflexivity. }
  destruct (Driver.execution_order (Some selected)) as [stages|e] eqn:Hs.
  2:{ split; [reflexivity|]. intros stages H'. discriminate H'. }
  split; [intros e H'; discriminate H'|]. intros stages' H'. injection H' as <-.
  destruct stages as [|first rest]; [exists 0; reflexivity|].
  destruct (Worker.h_open_queue H d) as [q|e]; [|exists 0; reflexivity].
  destruct (Worker.h_enqueue H q _) as [u|e]; [|exists 0; reflexivity].
  cbn [Chain.enqueued]. rewrite QueueFacts.deliver_msg.
  cbn [Worker.cm_config_path Worker.cm_stage Worker.cm_remaining].
  destruct (ChainFacts.follow_prefix H fuel
              (PosixPath.path_str (match Worker.h_env_config H with
                                   | Some e => e
                                   | None => "configs/default.yml"
                                   end)) first rest) as [k Hk].
  destruct (Chain.follow H fuel _) as [evs' r']. simpl in Hk |- *.
  exists k. exact Hk.
Qed.

(** X10: a config path already normalised by [Path] is a fixed point: a worker
    given it builds its driver from it unchanged and forwards it unchanged in
    the next message. *)
Theorem X10_config_path_stable (H : Worker.host) (c s : string) (rem : option (list string)) :
  let cp := PosixPath.path_str c in
  let run := Worker.main H (Worker.Payload (Some cp) (Some s) rem) in
  PosixPath.path_str cp = cp /\
  (forall p, In (Worker.ECreateDriver p) (fst run) -> p = cp) /\
  (forall m, In (Worker.EEnqueue m) (fst run) -> Worker.cm_config_path m = cp).
Proof.
  intros cp run. subst run.
  assert (Hi : PosixPath.path_str cp = cp) by exact (PathFacts.path_str_idem c).
  split; [exact Hi|].
  unfold Worker.main. cbn [Worker.p_config_path Worker.p_stage Worker.p_remaining].
  rewrite Hi.
  destruct (Worker.h_create_driver H cp) as [d|e].
  2:{ split; intros x [E|[]]; [injection E as ->; reflexivity|discriminate E]. }
  destruct (Worker.h_run_stage H d s) as [out|e].
  2:{ split; intros x [E|[E|[]]]; try discriminate E; injection E as ->; reflexivity. }
  destruct (match rem with Some r => r | None => [] end) as [|r0 rs].
  { split; intros x [E|[E|[]]]; try discriminate E; injection E as ->; reflexivity. }
  unfold Worker.enqueue_next. destruct (Worker.h_open_queue H d) as [q|e].
  2:{ split; intros x [E|[E|[]]]; try discriminate E; injection E as ->; reflexivity. }
  destruct (Worker.h_enqueue H q _) as [u|e]; simpl;
    (split; intros x Hin;
     repeat (destruct Hin as [E|Hin]; [try (injection E as <-; reflexivity);
                                       try (injection E as ->; reflexivity); discriminate E|]);
     destruct Hin).
Qed.

Module CheckpointStoreFacts.
Import Checkpoint CheckpointFacts.
Local Open Scope list_scope.

Section JsonInduction.
Variable P : json -> Prop.
Hypothesis HNull : P JNull.
Hypothesis HBool : forall b, P (JBool b).
Hypothesis HNum : forall z, P (JNum z).
Hypothesis HFloat : forall x, P (JFloat x).
Hypothesis HStr : forall s, P (JStr s).
Hypothesis HArr : forall l, Forall P l -> P (JArr l).
Hypothesis HObj : forall ms, Forall (fun m => P (snd m)) ms -> P (JObj ms).

(** Induction on JSON documents through their nested lists. *)
Fixpoint json_rect' (j : json) : P j :=
  match j with
  | JNull => HNull
  | JBool b => HBool b
  | JNum z => HNum z
  | JFloat x => HFloat x
  | JStr s => HStr s
  | JArr l =>
      HArr l ((fix go (l : list json) : Forall P l :=
                 match l with
                 | [] => Forall_nil _
                 | x :: xs => Forall_cons _ (json_rect' x) (go xs)
                 end) l)
  | JObj ms =>
      HObj ms ((fix go (l : list (string * json)) : Forall (fun m => P (snd m)) l :=
                  match l with
                  | [] => Forall_nil _
                  | (k, x) :: xs =>
                      @Forall_cons _ (fun m => P (snd m)) (k, x) xs (json_rect' x) (go xs)
                  end) ms)
  end.
End JsonInduction.

Lemma dict_set_vals (k : string) (v : pyval) (m : sdict) (kv : string * pyval) :
  In kv (dict_set k v m) -> kv = (k, v) \/ In kv m.
Proof.
  induction m as [|[k' v'] m IH]; simpl.
  - intros [<-|[]]. auto.
  - destruct (String.eqb k k'); simpl.
    + intros [<-|H]; auto.
    + intros [<-|H]; auto. destruct (IH H); auto.
Qed.

Lemma fold_step_vals (l acc : sdict) (kv : string * pyval) :
  In kv (fold_left step l acc) -> In kv l \/ In kv acc.
Proof.
  revert acc. induction l as [|x l IH]; simpl; intros acc H; [auto|].
  destruct (IH _ H) as [H'|H']; [auto|].
  unfold step in H'. destruct (dict_set_vals _ _ _ _ H') as [->|H'']; auto.
  left. left. destruct x; reflexivity.
Qed.

Lemma str_keys_distinct_nodup (l : list string) (seen : list string) :
  NoDup l -> (forall s, In s l -> ~ In s seen) ->
  str_keys_distinct seen (map KStr l) = true.
Proof.
  revert seen. induction l as [|s l IH]; intros seen Hnd Hd; simpl; [reflexivity|].
  inversion Hnd as [|? ? Hs Hnd']; subst.
  apply andb_true_iff. split.
  - apply negb_true_iff. destruct (existsb (String.eqb s) seen) eqn:E; [|reflexivity].
    apply existsb_exists in E as [x [Hx Ex]]. apply String.eqb_eq in Ex. subst x.
    exfalso. exact (Hd s (or_introl eq_refl) Hx).
  - apply IH; [exact Hnd'|]. intros x Hx [<-|Hin]; [exact (Hs Hx)|].
    exact (Hd x (or_intror Hx) Hin).
Qed.

(** What [json.load] returns is unchanged by a further JSON round trip. *)
Lemma py_of_json_normal (j : json) : json_normal (py_of_json j) = true.
Proof.
  induction j as [| b | z | x | s | l IHl | ms IHms] using json_rect'; simpl; try reflexivity.
  - induction l as [|x l IH]; simpl; [reflexivity|].
    inversion IHl as [|? ? Hx Hl]; subst. rewrite Hx. simpl. apply IH. exact Hl.
  - apply andb_true_iff. split.
    + rewrite map_map. simpl.
      set (d := dict_of_pairs _).
      assert (Hnd : NoDup (map fst d)) by (apply fold_step_nodup; constructor).
      replace (map (fun x => KStr (fst x)) d) with (map KStr (map fst d))
        by (rewrite map_map; reflexivity).
      apply str_keys_distinct_nodup; [exact Hnd|]. intros _ _ [].
    + apply forallb_forall. intros [k x] Hin.
      apply in_map_iff in Hin as [[k' x'] [E Hin]]. simpl in E. injection E as _ <-.
      unfold dict_of_pairs in Hin. fold step in Hin.
      destruct (fold_step_vals _ _ _ Hin) as [H|[]].
      apply in_map_iff in H as [[k0 j0] [E H]]. injection E as _ <-.
      rewrite Forall_forall in IHms. exact (IHms (k0, j0) H).
Qed.

Lemma read_normal (f : file) (kv : string * pyval) :
  In kv (read f) -> json_normal (snd kv) = true.
Proof.
  unfold read, dict_of_pairs. fold step. intros Hin.
  destruct (fold_step_vals _ _ _ Hin) as [H|[]].
  apply in_map_iff in H as [[k j] [<- _]]. apply py_of_json_normal.
Qed.

(** Writing back what was read leaves the document's content as read. *)
Lemma read_write_read (f : file) : read (write (read f)) = read f.
Proof.
  rewrite read_write by apply read_nodup.
  rewrite <- (map_id (read f)) at 2. apply map_ext_in.
  intros [k v] Hin. simpl. rewrite roundtrip_normal; [reflexivity|].
  exact (read_normal f (k, v) Hin).
Qed.

Lemma dict_get_map_set_other (g : pyval -> pyval) (k k' : string) (d v : pyval) (m : sdict) :
  k' <> k ->
  dict_get k' d (map (fun kv => (fst kv, g (snd kv))) (dict_set k v m)) =
  dict_get k' d (map (fun kv => (fst kv, g (snd kv))) m).
Proof.
  intros Hne. induction m as [|[k0 v0] m IH]; simpl.
  - apply String.eqb_neq in Hne. rewrite Hne. reflexivity.
  - destruct (String.eqb_spec k k0) as [<-|Hk]; simpl.
    + apply String.eqb_neq in Hne. rewrite Hne. reflexivity.
    + rewrite IH. reflexivity.
Qed.

End CheckpointStoreFacts.

(** X11: [get] on the checkpoint store writes back what it read: after it,
    every later [get] returns what it would have returned before, and a second
    [get] leaves the file unchanged. *)
Theorem X11_get_is_read_only (f : Checkpoint.file) (k : string) (d : Checkpoint.pyval) :
  let f' := snd (Checkpoint.get k d f) in
  (forall k' d', fst (Checkpoint.get k' d' f') = fst (Checkpoint.get k' d' f)) /\
  (forall k' d', snd (Checkpoint.get k' d' f') = f').
Proof.
  intros f'. subst f'. unfold Checkpoint.get. simpl.
  rewrite CheckpointStoreFacts.read_write_read. split; reflexivity.
Qed.

(** X12: [update] of one key leaves what [get] returns for every other key
    unchanged. *)
Theorem X12_update_other_key (f : Checkpoint.file) (k k' : string) (v d : Checkpoint.pyval) :
  k' <> k ->
  fst (Checkpoint.get k' d (Checkpoint.update k v f)) = fst (Checkpoint.get k' d f).
Proof.
  intros Hne. unfold Checkpoint.get, Checkpoint.update. simpl.
  rewrite CheckpointFacts.read_write
    by (apply CheckpointFacts.dict_set_nodup, CheckpointFacts.read_nodup).
  rewrite (CheckpointStoreFacts.dict_get_map_set_other
             (fun x => Checkpoint.py_of_json (Checkpoint.json_of_py x))) by exact Hne.
  rewrite <- (CheckpointStoreFacts.read_write_read f) at 2.
  rewrite CheckpointFacts.read_write by apply CheckpointFacts.read_nodup.
  reflexivity.
Qed.

Module LoaderFacts.
Import Checkpoint Loader.
Local Open Scope list_scope.

Lemma missing_fields_dict (kvs : list (pykey * pyval)) (fields : list string) :
  missing_fields (PDict kvs) fields =
    ROk (filter (fun f => match Queue.pget f kvs with None => true | Some _ => false end) fields).
Proof.
  induction fields as [|f fs IH]; simpl; [reflexivity|].
  rewrite IH. simpl. destruct (Queue.pget f kvs); reflexivity.
Qed.

End LoaderFacts.

(** X13: for a non-empty mapping document, [ContractLoader.load] raises
    ValueError listing the required fields that are absent, or returns a
    contract whose nine fields are the document's. *)
Theorem X13_load_mapping (fs : string -> option (res Checkpoint.pyval))
    (contracts_path contract_name : string) (kvs : list (Checkpoint.pykey * Checkpoint.pyval)) :
  let contract_file :=
    PosixPath.path_str (Loader.posix_join contracts_path (contract_name ++ ".yml")) in
  fs contract_file = Some (ROk (Checkpoint.PDict kvs)) -> kvs <> [] ->
  let absent := filter (fun f => match Queue.pget f kvs with None => true | Some _ => false end)
                       Loader.required_fields in
  (absent <> [] ->
     Loader.load fs contracts_path contract_name =
       RExc (Exn "ValueError" ("Contract missing required fields: " ++
                               Contracts.list_repr (map Contracts.VStr absent)))) /\
  (absent = [] ->
     exists c, Loader.load fs contracts_path contract_name = ROk c /\
       Queue.pget "version" kvs = Some (Loader.dc_version c) /\
       Queue.pget "dataset" kvs = Some (Loader.dc_dataset c) /\
       Queue.pget "stage" kvs = Some (Loader.dc_stage c) /\
       Queue.pget "owner" kvs = Some (Loader.dc_owner c) /\
       Queue.pget "description" kvs = Some (Loader.dc_description c) /\
       Queue.pget "schema" kvs = Some (Loader.dc_schema c) /\
       Queue.pget "quality_rules" kvs = Some (Loader.dc_quality_rules c) /\
       Queue.pget "sla" kvs = Some (Loader.dc_sla c) /\
       Queue.pget "evolution" kvs = Some (Loader.dc_evolution c)).
Proof.
  intros file Hfs Hne absent.
  unfold Loader.load. fold file. rewrite Hfs.
  assert (Ht : Loader.truthy (Checkpoint.PDict kvs) = true)
    by (destruct kvs; [congruence|reflexivity]).
  rewrite Ht. cbn [negb]. rewrite LoaderFacts.missing_fields_dict. fold absent.
  cbn [res_bind]. split.
  - intros Habs. destruct absent as [|m ms]; [congruence|reflexivity].
  - intros Habs. rewrite Habs. subst absent. unfold Loader.required_fields in Habs.
    cbn [filter] in Habs.
    repeat match type of Habs with
           | context [Queue.pget ?f kvs] =>
               let E := fresh "E" in
               destruct (Queue.pget f kvs) eqn:E; cbn in Habs; [|discriminate Habs]
           end.
    unfold Loader.py_getitem, Loader.py_get.
    rewrite E, E0, E1, E2, E3, E4, E5, E6, E7. cbn [res_bind].
    eexists. split; [reflexivity|]. cbn. repeat split; assumption.
Qed.

(** X14: [ContractLoader.load] of a document that is not a mapping never
    returns a contract; it raises. *)
Theorem X14_load_needs_mapping (fs : string -> option (res Checkpoint.pyval))
    (contracts_path contract_name : string) (v : Checkpoint.pyval) :
  fs (PosixPath.path_str (Loader.posix_join contracts_path (contract_name ++ ".yml"))) =
    Some (ROk v) ->
  (forall kvs, v <> Checkpoint.PDict kvs) ->
  exists e, Loader.load fs contracts_path contract_name = RExc e.
Proof.
  intros Hfs Hnd. unfold Loader.load. rewrite Hfs.
  destruct v as [| b | z | x | s | l | l | kvs]; [| | | | | | |exfalso; exact (Hnd kvs eq_refl)];
    (destruct (negb (Loader.truthy _)); [eexists; reflexivity|]);
    (destruct (Loader.missing_fields _ _) as [[|m ms]|e]; cbn [res_bind];
     eexists; reflexivity).
Qed.

(** X15: a contract name that is an absolute path is read from that path
    whatever the contracts directory is (the [/] join of pathlib). *)
Theorem X15_load_absolute_name (fs : string -> option (res Checkpoint.pyval))
    (contracts_path other_path rest : string) :
  Loader.load fs contracts_path (String "/" rest) = Loader.load fs other_path (String "/" rest).
Proof. reflexivity. Qed.

Module SchemaFacts.
Import Contracts.
Local Open Scope list_scope.

Lemma str_in_cons (x y : string) (ys : list string) :
  str_in x (y :: ys) = String.eqb x y || str_in x ys.
Proof. reflexivity. Qed.

Lemma str_in_iff (x : string) (l : list string) : str_in x l = true <-> In x l.
Proof.
  unfold str_in. rewrite existsb_exists. split.
  - intros [y [Hy E]]. apply String.eqb_eq in E. subst. exact Hy.
  - intros H. exists x. split; [exact H|apply String.eqb_refl].
Qed.

Lemma str_in_dedup (x : string) (l : list string) : str_in x (dedup l) = str_in x l.
Proof.
  induction l as [|y ys IH]; [reflexivity|]. cbn [dedup].
  destruct (str_in y ys) eqn:Hy.
  - rewrite IH, str_in_cons. destruct (String.eqb_spec x y) as [->|_]; [|reflexivity].
    rewrite Hy. reflexivity.
  - rewrite !str_in_cons, IH. reflexivity.
Qed.

Lemma in_dedup (x : string) (l : list string) : In x (dedup l) <-> In x l.
Proof. rewrite <- !str_in_iff. rewrite str_in_dedup. reflexivity. Qed.

Definition named (names : list string) (r : describe_row) : bool := str_in (dr_name r) names.

Lemma str_in_filter_rows (names : list string) (x : string) (rows : list describe_row) :
  str_in x names = true ->
  str_in x (map dr_name (filter (named names) rows)) = str_in x (map dr_name rows).
Proof.
  intros Hx. induction rows as [|r rs IH]; [reflexivity|]. cbn [filter map].
  unfold named at 1. destruct (str_in (dr_name r) names) eqn:Hr; cbn [map].
  - rewrite !str_in_cons, IH. reflexivity.
  - rewrite str_in_cons, IH. destruct (String.eqb_spec x (dr_name r)) as [->|_];
      [congruence|reflexivity].
Qed.

Lemma find_row_filter (names : list string) (n : string) (rows : list describe_row) :
  str_in n names = true -> find_row n (filter (named names) rows) = find_row n rows.
Proof.
  intros Hn. induction rows as [|r rs IH]; simpl; [reflexivity|].
  unfold named at 1. destruct (str_in (dr_name r) names) eqn:Hr; simpl.
  - rewrite IH. reflexivity.
  - rewrite IH. destruct (find_row n rs); [reflexivity|].
    destruct (String.eqb_spec (dr_name r) n) as [E|_]; [congruence|reflexivity].
Qed.

Lemma validate_columns_filter (con : conn) (ds : string) (names : list string)
    (cols : list column_def) (rows : list describe_row) :
  (forall c, In c cols -> str_in (col_name c) names = true) ->
  validate_columns con ds cols (filter (named names) rows) = validate_columns con ds cols rows.
Proof.
  intros Hc. induction cols as [|c cs IH]; simpl; [reflexivity|].
  rewrite find_row_filter by (apply Hc; left; reflexivity).
  rewrite IH by (intros c' Hc'; apply Hc; right; exact Hc'). reflexivity.
Qed.

End SchemaFacts.

(** X16: [SLAValidator.validate] passes iff the freshness bound holds for a
    known file age and the completeness minimum holds for the row count; its
    only warning is the growth-rate one, exactly when a growth rate check is
    configured. *)
Theorem X16_sla_verdict (s : Contracts.sla) (data_path : string) (age : Contracts.file_age)
    (row_count : Z) :
  let r := Contracts.sla_validate s data_path age row_count in
  (Contracts.passed r = true <->
     (forall mh, Contracts.freshness_max_age_hours s = Some (Some mh) ->
        exists secs, age = Some secs /\ (secs <= mh * 3600)%Z) /\
     (forall m g, Contracts.completeness_cfg s = Some (Some m, g) -> (m <= row_count)%Z)) /\
  Contracts.warnings r =
    match Contracts.completeness_cfg s with
    | Some (_, true) =>
        ["Expected growth rate check requires historical data comparison (not implemented)"]
    | _ => []
    end.
Proof.
  intros r. subst r. unfold Contracts.sla_validate.
  destruct (Contracts.freshness_max_age_hours s) as [[mh|]|] eqn:Hf;
  [destruct age as [secs|]| |];
  destruct (Contracts.completeness_cfg s) as [[[m|] g]|] eqn:Hc;
  unfold Contracts.validate_freshness, Contracts.validate_completeness; cbn [fst snd];
  try (destruct (mh * 3600 <? secs)%Z eqn:E1);
  try (destruct (row_count <? m)%Z eqn:E2);
  try (destruct g);
  cbn; (split; [|reflexivity]);
  try rewrite Z.ltb_lt in E1; try rewrite Z.ltb_ge in E1;
  try rewrite Z.ltb_lt in E2; try rewrite Z.ltb_ge in E2;
  split;
  try (intros [H1 H2]; first [ discriminate
                             | destruct (H1 _ eq_refl) as [x [Ex Hx]]; injection Ex as <-; lia
                             | destruct (H1 _ eq_refl) as [x [Ex Hx]]; discriminate Ex
                             | specialize (H2 _ _ eq_refl); lia ]);
  try discriminate;
  intros _; split;
  try (intros ? Hx; injection Hx as <-; eexists; split; [reflexivity|lia]);
  try (intros ? ? Hx; injection Hx as <- <-; lia);
  try (intros ? Hx; discriminate Hx); try (intros ? ? Hx; discriminate Hx).
Qed.

(** X17: a quality rule of unknown type adds one warning and no error, so it
    never makes a validation fail. *)
Theorem X17_unknown_rule_type (con : Contracts.conn) (ds : string)
    (r : Contracts.quality_rule) (rs1 rs2 : list Contracts.quality_rule) :
  Contracts.r_type r <> "uniqueness" -> Contracts.r_type r <> "not_null" ->
  Contracts.r_type r <> "volume" -> Contracts.r_type r <> "custom_sql" ->
  let msg := "Rule " ++ Contracts.r_name r ++ ": Unknown rule type " ++ Contracts.r_type r in
  Contracts.validate_rule con ds r = ([], [msg]) /\
  Contracts.errors (Contracts.quality_validate con ds (rs1 ++ r :: rs2)%list) =
    Contracts.errors (Contracts.quality_validate con ds (rs1 ++ rs2)%list) /\
  In msg (Contracts.warnings (Contracts.quality_validate con ds (rs1 ++ r :: rs2)%list)).
Proof.
  intros H1 H2 H3 H4 msg.
  assert (Hv : Contracts.validate_rule con ds r = ([], [msg])).
  { unfold Contracts.validate_rule, Contracts.rule_body.
    apply String.eqb_neq in H1, H2, H3, H4. rewrite H1, H2, H3, H4. reflexivity. }
  split; [exact Hv|].
  pose proof (ContractFacts.quality_split con ds rs1 rs2 r) as Hs. simpl in Hs.
  rewrite Hv in Hs. simpl in Hs. rewrite Hs.
  pose proof (ContractFacts.quality_app con ds rs1 rs2) as [Ea _].
  unfold Contracts.quality_validate in Ea |- *. rewrite Ea.
  destruct (String.eqb (Contracts.r_severity r) "error"); simpl;
    (split; [rewrite ?ContractFacts.collect_app; reflexivity|]);
    apply in_or_app; right; left; reflexivity.
Qed.

(** X18: columns present in the table but not in the contract only add a
    warning: the errors and the verdict of [SchemaValidator.validate] are
    those for the table without them. *)
Theorem X18_extra_columns_only_warn (con : Contracts.conn) (ds : string)
    (cols : list Contracts.column_def) (rows : list Contracts.describe_row) :
  Contracts.describe con ds = ROk rows ->
  let rows' := filter (SchemaFacts.named (map Contracts.col_name cols)) rows in
  let con' := Contracts.Conn (fun _ => ROk rows') (Contracts.count con) (Contracts.scalar con) in
  (forall r, Contracts.schema_validate con ds cols = ROk r ->
     exists r', Contracts.schema_validate con' ds cols = ROk r' /\
       Contracts.errors r' = Contracts.errors r /\ Contracts.passed r' = Contracts.passed r) /\
  (forall e, Contracts.schema_validate con ds cols = RExc e ->
     Contracts.schema_validate con' ds cols = RExc e).
Proof.
  intros Hd rows' con'.
  assert (Hcols : forall c, In c cols -> str_in (Contracts.col_name c) (map Contracts.col_name cols) = true).
  { intros c Hc. apply SchemaFacts.str_in_iff. apply in_map. exact Hc. }
  assert (Hvc : Contracts.validate_columns con' ds cols rows' =
                Contracts.validate_columns con ds cols rows).
  { change (Contracts.validate_columns con ds cols rows' =
            Contracts.validate_columns con ds cols rows).
    apply SchemaFacts.validate_columns_filter. exact Hcols. }
  assert (Hmiss :
    filter (fun x => negb (str_in x (Contracts.dedup (map Contracts.dr_name rows'))))
           (Contracts.dedup (map Contracts.col_name cols)) =
    filter (fun x => negb (str_in x (Contracts.dedup (map Contracts.dr_name rows))))
           (Contracts.dedup (map Contracts.col_name cols))).
  { apply filter_ext_in. intros x Hx.
    rewrite !SchemaFacts.str_in_dedup. subst rows'.
    rewrite SchemaFacts.str_in_filter_rows; [reflexivity|].
    apply SchemaFacts.str_in_iff. exact (proj1 (SchemaFacts.in_dedup _ _) Hx). }
  unfold Contracts.schema_validate. rewrite Hd.
  change (Contracts.describe con' ds) with (ROk rows' : res (list Contracts.describe_row)).
  cbv iota beta. rewrite Hmiss, Hvc.
  destruct (Contracts.validate_columns con ds cols rows) as [ew|e]; cbn [res_bind]; split.
  - intros r Hr. injection Hr as <-. eexists. split; [reflexivity|]. split; reflexivity.
  - intros e He. discriminate He.
  - intros r Hr. discriminate Hr.
  - intros e' He. exact He.
Qed.

(** X19: a contract column absent from the table makes
    [SchemaValidator.validate] fail, with a first error listing the missing
    columns that names it. *)
Theorem X19_missing_column_fails (con : Contracts.conn) (ds : string)
    (cols : list Contracts.column_def) (rows : list Contracts.describe_row)
    (c : Contracts.column_def) :
  Contracts.describe con ds = ROk rows -> In c cols ->
  ~ In (Contracts.col_name c) (map Contracts.dr_name rows) ->
  forall r, Contracts.schema_validate con ds cols = ROk r ->
  Contracts.passed r = false /\
  exists missing, In (Contracts.col_name c) missing /\
    hd_error (Contracts.errors r) =
      Some ("Missing required columns: " ++ Contracts.set_repr missing).
Proof.
  intros Hd Hc Hn r Hr. unfold Contracts.schema_validate in Hr. rewrite Hd in Hr.
  set (missing := filter (fun x => negb (str_in x (Contracts.dedup (map Contracts.dr_name rows))))
                         (Contracts.dedup (map Contracts.col_name cols))) in Hr.
  assert (Hin : In (Contracts.col_name c) missing).
  { apply filter_In. split.
    - apply (proj2 (SchemaFacts.in_dedup _ _)). apply in_map. exact Hc.
    - rewrite SchemaFacts.str_in_dedup. apply negb_true_iff.
      destruct (str_in _ _) eqn:E; [|reflexivity].
      apply SchemaFacts.str_in_iff in E. contradiction. }
  destruct missing as [|m ms] eqn:Em; [destruct Hin|].
  destruct (Contracts.validate_columns con ds cols rows) as [ew|e]; cbn [res_bind] in Hr;
    [|discriminate Hr].
  injection Hr as <-. simpl. split; [reflexivity|].
  exists (m :: ms). split; [exact Hin|reflexivity].
Qed.

Lemma X1_executor_runs_all_witness :
  NoDup ["bronze"; "silver"] /\
  Executor.run ["bronze"; "silver"] [("bronze", ROk "a"); ("silver", ROk "b")] =
    (["bronze"; "silver"], ROk [("bronze", "a"); ("silver", "b")]).
Proof.
  split; [repeat constructor; simpl; intuition discriminate|].
  apply (X1_executor_runs_all ["bronze"; "silver"] [("bronze", ROk "a"); ("silver", ROk "b")]
           (fun s => if String.eqb s "bronze" then "a" else "b")).
  - repeat constructor; simpl; intuition discriminate.
  - intros s [<-|[<-|[]]]; reflexivity.
Defined.

Lemma X2_executor_stops_at_failure_witness :
  Executor.run ["bronze"; "silver"; "gold"]
    [("bronze", ROk "a"); ("silver", RExc (Exn "OSError" "disk full")); ("gold", ROk "c")] =
    (["bronze"; "silver"], RExc (Exn "OSError" "disk full")).
Proof.
  destruct (X2_executor_stops_at_failure
              [("bronze", ROk "a"); ("silver", RExc (Exn "OSError" "disk full")); ("gold", ROk "c")]
              ["bronze"] "silver" ["gold"]) as [_ H2].
  - intros s [<-|[]]. exists "a". reflexivity.
  - exact (H2 (Exn "OSError" "disk full") eq_refl).
Defined.

Lemma X3_driver_run_witness :
  Driver.execution_order (Some "Silver") = ROk ["silver"; "gold"] /\
  DriverRun.run (DriverRun.StageRuns (ROk ["b"]) (ROk ["s1"; "s2"]) (ROk ["g"])) (Some "Silver") =
    (["silver"; "gold"], ROk [("silver", "s1,s2"); ("gold", "g")]).
Proof.
  split; [reflexivity|].
  destruct (X3_driver_run (DriverRun.StageRuns (ROk ["b"]) (ROk ["s1"; "s2"]) (ROk ["g"]))
              (Some "Silver") ["silver"; "gold"] eq_refl) as [H1 _].
  apply (H1 (fun s => if String.eqb s "silver" then "s1,s2" else "g")).
  intros s [<-|[<-|[]]]; reflexivity.
Defined.

Lemma X5_trigger_enqueues_first_stage_witness :
  Worker.h_create_driver Worker.ok_host "configs/default.yml" = ROk tt /\
  Trigger.main Worker.ok_host (Some "Silver") =
    ([Worker.ECreateDriver "configs/default.yml";
      Worker.EEnqueue (Worker.ContMsg "configs/default.yml" "silver" ["gold"])], ROk tt).
Proof.
  split; [reflexivity|].
  destruct (X5_trigger_enqueues_first_stage Worker.ok_host (Some "Silver") tt eq_refl)
    as [_ [H2 _]].
  destruct (H2 ["silver"; "gold"] eq_refl) as [first [rest [E Hm]]].
  injection E as <- <-. exact (Hm tt eq_refl eq_refl).
Defined.

Lemma X12_update_other_key_witness :
  fst (Checkpoint.get "orders" Checkpoint.PNone
         (Checkpoint.update "customers" (Checkpoint.PInt 7)
            [("orders", Checkpoint.JStr "2024-01-01")])) = Checkpoint.PStr "2024-01-01".
Proof.
  rewrite (X12_update_other_key [("orders", Checkpoint.JStr "2024-01-01")] "customers" "orders"
             (Checkpoint.PInt 7) Checkpoint.PNone) by discriminate.
  reflexivity.
Defined.

Lemma X13_load_mapping_witness :
  let fs := fun p : string => if String.eqb p "contracts/orders.yml"
                              then Some (ROk (Checkpoint.PDict
                                     [(Checkpoint.KStr "version", Checkpoint.PStr "1");
                                      (Checkpoint.KStr "owner", Checkpoint.PStr "ops")]))
                              else None in
  Loader.load fs "contracts" "orders" =
    RExc (Exn "ValueError"
            "Contract missing required fields: ['dataset', 'stage', 'description', 'schema', 'quality_rules', 'sla', 'evolution']").
Proof.
  intros fs.
  destruct (X13_load_mapping fs "contracts" "orders"
              [(Checkpoint.KStr "version", Checkpoint.PStr "1");
               (Checkpoint.KStr "owner", Checkpoint.PStr "ops")] eq_refl ltac:(discriminate))
    as [H1 _].
  exact (H1 ltac:(discriminate)).
Defined.

Lemma X14_load_needs_mapping_witness :
  exists e, Loader.load (fun _ => Some (ROk (Checkpoint.PList [Checkpoint.PStr "version"])))
              "contracts" "orders" = RExc e.
Proof.
  apply (X14_load_needs_mapping _ "contracts" "orders"
           (Checkpoint.PList [Checkpoint.PStr "version"]) eq_refl).
  intros kvs H. discriminate H.
Defined.

Lemma X17_unknown_rule_type_witness :
  let con := Table.table_conn (Table.MkTable "orders" [("id", "INTEGER")] [[Contracts.VInt 1]])
               (fun _ => ROk (Contracts.VInt 0)) in
  let r := Contracts.QualityRule "fresh" "freshness" "error" None None Contracts.VNull None in
  Contracts.errors (Contracts.quality_validate con "orders" [r]) = [].
Proof.
  intros con r.
  destruct (X17_unknown_rule_type con "orders" r [] [] ltac:(discriminate) ltac:(discriminate)
              ltac:(discriminate) ltac:(discriminate)) as [_ [E _]].
  exact E.
Defined.

Lemma X18_extra_columns_only_warn_witness :
  let con := Table.table_conn
               (Table.MkTable "orders" [("id", "INTEGER"); ("note", "VARCHAR")]
                  [[Contracts.VInt 1; Contracts.VNull]])
               (fun _ => ROk (Contracts.VInt 0)) in
  let cols := [Contracts.ColumnDef "id" "INTEGER" true []] in
  Contracts.schema_validate con "orders" cols =
    ROk (Contracts.VResult true [] ["Extra columns found (not in contract): {'note'}"]) /\
  exists r', Contracts.schema_validate
               (Contracts.Conn (fun _ => ROk (filter (SchemaFacts.named (map Contracts.col_name cols))
                                                     [Contracts.DescribeRow "id" "INTEGER" "YES";
                                                      Contracts.DescribeRow "note" "VARCHAR" "YES"]))
                  (Contracts.count con) (Contracts.scalar con)) "orders" cols = ROk r' /\
             Contracts.errors r' = [] /\ Contracts.passed r' = true.
Proof.
  intros con cols. split; [reflexivity|].
  destruct (X18_extra_columns_only_warn con "orders" cols
              [Contracts.DescribeRow "id" "INTEGER" "YES";
               Contracts.DescribeRow "note" "VARCHAR" "YES"] eq_refl) as [H1 _].
  exact (H1 _ eq_refl).
Defined.

Lemma X19_missing_column_fails_witness :
  let con := Table.table_conn (Table.MkTable "orders" [("id", "INTEGER")] [[Contracts.VInt 1]])
               (fun _ => ROk (Contracts.VInt 0)) in
  let c := Contracts.ColumnDef "email" "VARCHAR" true [] in
  Contracts.schema_validate con "orders" [c] =
    ROk (Contracts.VResult false ["Missing required columns: {'email'}"]
           ["Extra columns found (not in contract): {'id'}"]) /\
  Contracts.passed (Contracts.VResult false ["Missing required columns: {'email'}"]
                      ["Extra columns found (not in contract): {'id'}"]) = false.
Proof.
  intros con c. split; [reflexivity|].
  destruct (X19_missing_column_fails con "orders" [c]
              [Contracts.DescribeRow "id" "INTEGER" "YES"] c eq_refl (or_introl eq_refl)
              ltac:(simpl; intros [E|[]]; discriminate E) _ eq_refl) as [Hp _].
  exact Hp.
Defined.
